(** * kp-personal-page: the contact form validator, the message store,
      the submission flow and the theme preference of [script.js].

    The development is a shallow embedding of the JavaScript source.  The
    browser builtins the script calls ([String.prototype.trim],
    [RegExp.prototype.test], [JSON.parse], [JSON.stringify], [localStorage],
    [classList]) are modelled first; the functions of the script follow,
    each under the name it has in the source, as commands of a state monad
    over the page in which a JavaScript exception is a result of its own.

    What the model leaves out: numbers are exact decimals, without the
    rounding of IEEE doubles; [localStorage] has no quota; the text of the
    cards of the message list is not built, only which messages it shows.
    The elements of [index.html] are a parameter: a page may or may not
    have the elements the script looks up, and a lookup that fails makes
    the next property access throw, as it does in the browser. *)

From Stdlib Require Import ZArith NArith List Bool Ascii String Lia.
From Stdlib Require Import DecimalPos DecimalN DecimalZ DecimalFacts.
From stdpp Require Import base option list strings gmap sorting.

Open Scope N_scope.

(** ** JavaScript strings

    A JavaScript string is a sequence of UTF-16 code units and [length]
    counts code units.  Literals of the source are written as Rocq strings
    and turned into code units by [lit]. *)

Abbreviation code_unit := N (only parsing).
Abbreviation jsstring := (list N) (only parsing).

Definition lit (s : string) : jsstring :=
  map N_of_ascii (list_ascii_of_string s).

(** The white space and line terminator code points of ECMAScript: the
    characters removed by [trim] and matched by the regular expression
    class [\s]. *)
Definition isWhiteSpace (c : code_unit) : bool :=
  (c =? 0x09) || (c =? 0x0A) || (c =? 0x0B) || (c =? 0x0C) || (c =? 0x0D)
  || (c =? 0x20) || (c =? 0xA0) || (c =? 0x1680)
  || ((0x2000 <=? c) && (c <=? 0x200A))
  || (c =? 0x2028) || (c =? 0x2029) || (c =? 0x202F) || (c =? 0x205F)
  || (c =? 0x3000) || (c =? 0xFEFF).

Fixpoint dropWhile {A} (p : A -> bool) (l : list A) : list A :=
  match l with
  | [] => []
  | x :: l' => if p x then dropWhile p l' else l
  end.

Definition trimStart (s : jsstring) : jsstring := dropWhile isWhiteSpace s.
Definition trimEnd (s : jsstring) : jsstring :=
  rev (dropWhile isWhiteSpace (rev s)).

(** [String.prototype.trim] *)
Definition trim (s : jsstring) : jsstring := trimEnd (trimStart s).

(** A string of white space only. *)
Definition all_white (s : jsstring) : Prop :=
  Forall (fun c => isWhiteSpace c = true) s.

(** ** Regular expressions

    The one pattern of the script, [/^[^\s@]+@[^\s@]+\.[^\s@]+$/], is
    anchored at both ends and is a sequence of items that each match one
    code unit of a class, once or one-or-more times.  [regex_test] is
    [RegExp.prototype.test] for such patterns (no flags, so no state). *)

Inductive regex_item :=
| Once (cls : code_unit -> bool)
| OneOrMore (cls : code_unit -> bool).

Definition regex := list regex_item.

Fixpoint regex_test (s : jsstring) (r : regex) {struct s} : bool :=
  match r, s with
  | [], [] => true
  | [], _ :: _ => false
  | _ :: _, [] => false
  | Once cls :: r', c :: s' => cls c && regex_test s' r'
  | OneOrMore cls :: r', c :: s' =>
      cls c && (regex_test s' r' || regex_test s' r)
  end.

Definition commercial_at : code_unit := 0x40.
Definition full_stop : code_unit := 0x2E.

(** [[^\s@]] *)
Definition not_space_at (c : code_unit) : bool :=
  negb (isWhiteSpace c || (c =? commercial_at)).

Definition email_pattern : regex :=
  [ OneOrMore not_space_at; Once (N.eqb commercial_at);
    OneOrMore not_space_at; Once (N.eqb full_stop);
    OneOrMore not_space_at ].

(** ** 6. Form validation *)

Module Validation.

(** The [errorMessages] object of a rule set; [None] is a property that
    is not there ([undefined]). *)
Record ErrorMessages := {
  msg_required : option jsstring;
  msg_minLength : option jsstring;
  msg_maxLength : option jsstring;
  msg_pattern : option jsstring
}.

(** One entry of [validationRules]; [None] is a property that is not
    there. *)
Record Rules := {
  required : bool;
  minLength : option nat;
  maxLength : option nat;
  pattern : option regex;
  errorMessages : ErrorMessages
}.

Definition validationRules : gmap string Rules :=
  {[ "senderName"%string := {|
       required := true;
       minLength := Some 2%nat;
       maxLength := Some 100%nat;
       pattern := None;
       errorMessages := {|
         msg_required := Some (lit "Please enter your name");
         msg_minLength := Some (lit "Name must be at least 2 characters");
         msg_maxLength := Some (lit "Name must be less than 100 characters");
         msg_pattern := None |} |};
     "senderEmail"%string := {|
       required := true;
       minLength := None;
       maxLength := None;
       pattern := Some email_pattern;
       errorMessages := {|
         msg_required := Some (lit "Please enter your email address");
         msg_minLength := None;
         msg_maxLength := None;
         msg_pattern := Some (lit
           "Please enter a valid email address (e.g., name@example.com)") |} |};
     "subject"%string := {|
       required := true;
       minLength := Some 3%nat;
       maxLength := Some 200%nat;
       pattern := None;
       errorMessages := {|
         msg_required := Some (lit "Please enter a subject");
         msg_minLength := Some (lit "Subject must be at least 3 characters");
         msg_maxLength := Some (lit "Subject must be less than 200 characters");
         msg_pattern := None |} |};
     "message"%string := {|
       required := true;
       minLength := Some 10%nat;
       maxLength := Some 5000%nat;
       pattern := None;
       errorMessages := {|
         msg_required := Some (lit "Please enter your message");
         msg_minLength := Some (lit "Message must be at least 10 characters");
         msg_maxLength := Some (lit "Message must be less than 5000 characters");
         msg_pattern := None |} |} ]}.

(** The object [validateField] returns; [errorMessage] is [None] when the
    message looked up in [errorMessages] is [undefined]. *)
Record ValidationResult := {
  isValid : bool;
  errorMessage : option jsstring
}.

Definition valid_result : ValidationResult :=
  {| isValid := true; errorMessage := Some [] |}.
Definition invalid_result (m : option jsstring) : ValidationResult :=
  {| isValid := false; errorMessage := m |}.

(** Truthiness of an optional number: [undefined] and [0] are falsy. *)
Definition truthy_length (n : option nat) : bool :=
  match n with Some (S _) => true | _ => false end.

Definition length_of (n : option nat) : nat := default 0%nat n.

(** The body of [validateField] once [rules] has been looked up. *)
Definition validateRules (rules : Rules) (value : jsstring) : ValidationResult :=
  let trimmedValue := trim value in
  if required rules && bool_decide (trimmedValue = []) then
    invalid_result (msg_required (errorMessages rules))
  else if truthy_length (minLength rules)
          && (length trimmedValue <? length_of (minLength rules))%nat then
    invalid_result (msg_minLength (errorMessages rules))
  else if truthy_length (maxLength rules)
          && (length_of (maxLength rules) <? length trimmedValue)%nat then
    invalid_result (msg_maxLength (errorMessages rules))
  else match pattern rules with
       | Some re =>
           if negb (regex_test trimmedValue re) then
             invalid_result (msg_pattern (errorMessages rules))
           else valid_result
       | None => valid_result
       end.

Definition validateField (fieldId : string) (value : jsstring) : ValidationResult :=
  match validationRules !! fieldId with
  | None => valid_result
  | Some rules => validateRules rules value
  end.

End Validation.

Import Validation.


(** ** JSON

    The values JSON text denotes.  A number [JNumber m e] is [m * 10^e],
    kept exactly: the rounding of IEEE doubles is outside the model.  An
    object keeps its members in the order of the text; reading a property
    takes the last member with that name, as [JSON.parse] does. *)

Unset Elimination Schemes.
Inductive json :=
| JNull
| JBool (b : bool)
| JNumber (m : Z) (e : Z)
| JString (s : jsstring)
| JArray (items : list json)
| JObject (members : list (jsstring * json)).
Set Elimination Schemes.

Inductive exn := SyntaxError | TypeError.

Module Json.

Import Decimal.

Fixpoint print_digits (d : uint) : jsstring :=
  match d with
  | Nil => []
  | D0 d => 0x30 :: print_digits d | D1 d => 0x31 :: print_digits d
  | D2 d => 0x32 :: print_digits d | D3 d => 0x33 :: print_digits d
  | D4 d => 0x34 :: print_digits d | D5 d => 0x35 :: print_digits d
  | D6 d => 0x36 :: print_digits d | D7 d => 0x37 :: print_digits d
  | D8 d => 0x38 :: print_digits d | D9 d => 0x39 :: print_digits d
  end.

Definition digit_of (c : code_unit) : option (uint -> uint) :=
  if c =? 0x30 then Some D0 else if c =? 0x31 then Some D1
  else if c =? 0x32 then Some D2 else if c =? 0x33 then Some D3
  else if c =? 0x34 then Some D4 else if c =? 0x35 then Some D5
  else if c =? 0x36 then Some D6 else if c =? 0x37 then Some D7
  else if c =? 0x38 then Some D8 else if c =? 0x39 then Some D9
  else None.

(** The longest prefix of digits, and what follows it. *)
Fixpoint read_digits (s : jsstring) : uint * jsstring :=
  match s with
  | [] => (Nil, [])
  | c :: s' =>
      match digit_of c with
      | Some k => let '(d, r) := read_digits s' in (k d, r)
      | None => (Nil, s)
      end
  end.

(** One or more digits. *)
Definition read_digits1 (s : jsstring) : option (uint * jsstring) :=
  match read_digits s with
  | (Nil, _) => None
  | (d, r) => Some (d, r)
  end.

Definition print_N (n : N) : jsstring := print_digits (N.to_uint n).

Definition print_Z (z : Z) : jsstring :=
  if (z <? 0)%Z then 0x2D :: print_N (Z.abs_N z) else print_N (Z.abs_N z).

Definition print_number (m e : Z) : jsstring :=
  if (e =? 0)%Z then print_Z m else print_Z m ++ 0x65 :: print_Z e.

Definition signed (neg : bool) (n : N) : Z :=
  if neg then (- Z.of_N n)%Z else Z.of_N n.

(** The JSON number grammar: an optional minus sign; an integer part that
    is either the digit zero or a non-zero digit followed by any digits;
    optionally a full stop and one or more digits; optionally [e] or [E],
    an optional sign and one or more digits. *)

Definition read_minus (s : jsstring) : bool * jsstring :=
  match s with
  | c :: s' => if c =? 0x2D then (true, s') else (false, s)
  | [] => (false, s)
  end.

Definition read_int_part (s : jsstring) : option (uint * jsstring) :=
  match s with
  | c :: s' => if c =? 0x30 then Some (D0 Nil, s') else read_digits1 s
  | [] => None
  end.

Definition read_fraction (s : jsstring) : option (uint * jsstring) :=
  match s with
  | c :: s' => if c =? 0x2E then read_digits1 s' else Some (Nil, s)
  | [] => Some (Nil, s)
  end.

Definition read_exponent_sign (s : jsstring) : bool * jsstring :=
  match s with
  | c :: s' => if c =? 0x2D then (true, s')
               else if c =? 0x2B then (false, s') else (false, s)
  | [] => (false, s)
  end.

Definition read_exponent (s : jsstring) : option (Z * jsstring) :=
  match s with
  | c :: s' =>
      if (c =? 0x65) || (c =? 0x45) then
        let '(neg, s'') := read_exponent_sign s' in
        '(d, r) ← read_digits1 s'';
        Some (signed neg (N.of_uint d), r)
      else Some (0%Z, s)
  | [] => Some (0%Z, s)
  end.

Definition parse_number (s : jsstring) : option (json * jsstring) :=
  let '(neg, s1) := read_minus s in
  '(int_part, s2) ← read_int_part s1;
  '(frac, s3) ← read_fraction s2;
  '(exp, s4) ← read_exponent s3;
  let mant :=
    N.of_uint int_part * 10 ^ N.of_nat (nb_digits frac) + N.of_uint frac in
  Some (JNumber (signed neg mant) (exp - Z.of_nat (nb_digits frac)), s4).

(** *** Strings *)

Definition hex_digit (d : N) : code_unit :=
  if d <? 10 then 0x30 + d else 0x61 + (d - 10).

Definition hex_value (c : code_unit) : option N :=
  if (0x30 <=? c) && (c <=? 0x39) then Some (c - 0x30)
  else if (0x61 <=? c) && (c <=? 0x66) then Some (c - 0x61 + 10)
  else if (0x41 <=? c) && (c <=? 0x46) then Some (c - 0x41 + 10)
  else None.

Definition reverse_solidus : code_unit := 0x5C.
Definition quotation_mark : code_unit := 0x22.

(** [\uXXXX] *)
Definition unicode_escape (c : code_unit) : jsstring :=
  [ reverse_solidus; 0x75;
    hex_digit (c / 4096); hex_digit ((c / 256) mod 16);
    hex_digit ((c / 16) mod 16); hex_digit (c mod 16) ].

Definition is_high_surrogate (c : code_unit) : bool :=
  (0xD800 <=? c) && (c <=? 0xDBFF).
Definition is_low_surrogate (c : code_unit) : bool :=
  (0xDC00 <=? c) && (c <=? 0xDFFF).

(** How [JSON.stringify] writes one code unit that is not part of a
    surrogate pair. *)
Definition escape_unit (c : code_unit) : jsstring :=
  if c =? 0x08 then [reverse_solidus; 0x62]
  else if c =? 0x09 then [reverse_solidus; 0x74]
  else if c =? 0x0A then [reverse_solidus; 0x6E]
  else if c =? 0x0C then [reverse_solidus; 0x66]
  else if c =? 0x0D then [reverse_solidus; 0x72]
  else if c =? quotation_mark then [reverse_solidus; quotation_mark]
  else if c =? reverse_solidus then [reverse_solidus; reverse_solidus]
  else if (c <? 0x20) || is_high_surrogate c || is_low_surrogate c
       then unicode_escape c
  else [c].

Fixpoint escape (s : jsstring) : jsstring :=
  match s with
  | [] => []
  | c :: s' =>
      if is_high_surrogate c then
        match s' with
        | c' :: s'' =>
            if is_low_surrogate c' then c :: c' :: escape s''
            else escape_unit c ++ escape s'
        | [] => escape_unit c
        end
      else escape_unit c ++ escape s'
  end.

(** [QuoteJSONString] *)
Definition quote (s : jsstring) : jsstring :=
  quotation_mark :: escape s ++ [quotation_mark].

Definition simple_escape (c : code_unit) : option code_unit :=
  if c =? quotation_mark then Some quotation_mark
  else if c =? reverse_solidus then Some reverse_solidus
  else if c =? 0x2F then Some 0x2F
  else if c =? 0x62 then Some 0x08
  else if c =? 0x66 then Some 0x0C
  else if c =? 0x6E then Some 0x0A
  else if c =? 0x72 then Some 0x0D
  else if c =? 0x74 then Some 0x09
  else None.

(** The characters of a string literal after its opening quotation mark,
    up to and including the closing one. *)
Fixpoint parse_string (s : jsstring) : option (jsstring * jsstring) :=
  match s with
  | [] => None
  | c :: s' =>
      if c =? quotation_mark then Some ([], s')
      else if c =? reverse_solidus then
        match s' with
        | [] => None
        | e :: s'' =>
            if e =? 0x75 then
              match s'' with
              | h1 :: h2 :: h3 :: h4 :: s3 =>
                  d1 ← hex_value h1; d2 ← hex_value h2;
                  d3 ← hex_value h3; d4 ← hex_value h4;
                  '(str, r) ← parse_string s3;
                  Some ((((d1 * 16 + d2) * 16 + d3) * 16 + d4) :: str, r)
              | _ => None
              end
            else
              u ← simple_escape e;
              '(str, r) ← parse_string s'';
              Some (u :: str, r)
        end
      else if c <? 0x20 then None
      else '(str, r) ← parse_string s'; Some (c :: str, r)
  end.

(** *** Values *)

Definition is_json_ws (c : code_unit) : bool :=
  (c =? 0x20) || (c =? 0x09) || (c =? 0x0A) || (c =? 0x0D).

Definition skip_ws (s : jsstring) : jsstring := dropWhile is_json_ws s.

Fixpoint expect (word : jsstring) (s : jsstring) : option jsstring :=
  match word, s with
  | [], _ => Some s
  | w :: word', c :: s' => if c =? w then expect word' s' else None
  | _ :: _, [] => None
  end.

Definition comma : code_unit := 0x2C.
Definition colon : code_unit := 0x3A.

(** The elements of a non-empty array, separated by commas and closed by
    a right square bracket.  [n] bounds the number of elements. *)
Fixpoint parse_elements (value : jsstring -> option (json * jsstring))
    (n : nat) (s : jsstring) : option (list json * jsstring) :=
  match n with
  | O => None
  | S n' =>
      '(v, s1) ← value s;
      match skip_ws s1 with
      | c :: s2 =>
          if c =? comma then
            '(vs, r) ← parse_elements value n' (skip_ws s2);
            Some (v :: vs, r)
          else if c =? 0x5D then Some ([v], s2)
          else None
      | [] => None
      end
  end.

(** The members of a non-empty object, each a string, a colon and a
    value, separated by commas and closed by a right curly bracket. *)
Fixpoint parse_members (value : jsstring -> option (json * jsstring))
    (n : nat) (s : jsstring) : option (list (jsstring * json) * jsstring) :=
  match n with
  | O => None
  | S n' =>
      match s with
      | q :: s0 =>
          if q =? quotation_mark then
            '(k, s1) ← parse_string s0;
            match skip_ws s1 with
            | c :: s2 =>
                if c =? colon then
                  '(v, s3) ← value (skip_ws s2);
                  match skip_ws s3 with
                  | c' :: s4 =>
                      if c' =? comma then
                        '(ms, r) ← parse_members value n' (skip_ws s4);
                        Some ((k, v) :: ms, r)
                      else if c' =? 0x7D then Some ([(k, v)], s4)
                      else None
                  | [] => None
                  end
                else None
            | [] => None
            end
          else None
      | [] => None
      end
  end.

(** One JSON value at the head of [s]; [fuel] bounds the nesting depth. *)
Fixpoint parse_value (fuel : nat) (s : jsstring) : option (json * jsstring) :=
  match fuel with
  | O => None
  | S fuel' =>
      match s with
      | [] => None
      | c :: s' =>
          if c =? 0x5B then
            match skip_ws s' with
            | [] => None
            | c1 :: s2 =>
                if c1 =? 0x5D then Some (JArray [], s2)
                else
                  '(vs, r) ← parse_elements (parse_value fuel')
                               (length s') (skip_ws s');
                  Some (JArray vs, r)
            end
          else if c =? 0x7B then
            match skip_ws s' with
            | [] => None
            | c1 :: s2 =>
                if c1 =? 0x7D then Some (JObject [], s2)
                else
                  '(ms, r) ← parse_members (parse_value fuel')
                               (length s') (skip_ws s');
                  Some (JObject ms, r)
            end
          else if c =? quotation_mark then
            '(str, r) ← parse_string s'; Some (JString str, r)
          else if c =? 0x74 then
            r ← expect (lit "rue") s'; Some (JBool true, r)
          else if c =? 0x66 then
            r ← expect (lit "alse") s'; Some (JBool false, r)
          else if c =? 0x6E then
            r ← expect (lit "ull") s'; Some (JNull, r)
          else parse_number s
      end
  end.

(** [JSON.parse] of a string: the whole text must be one value between
    optional white space. *)
Definition parse (text : jsstring) : exn + json :=
  match parse_value (S (length text)) (skip_ws text) with
  | Some (v, r) =>
      match skip_ws r with
      | [] => inr v
      | _ :: _ => inl SyntaxError
      end
  | None => inl SyntaxError
  end.

Fixpoint join (sep : code_unit) (parts : list jsstring) : jsstring :=
  match parts with
  | [] => []
  | [p] => p
  | p :: parts' => p ++ sep :: join sep parts'
  end.

(** [JSON.stringify] of a value, without indentation. *)
Fixpoint stringify (v : json) : jsstring :=
  match v with
  | JNull => lit "null"
  | JBool true => lit "true"
  | JBool false => lit "false"
  | JNumber m e => print_number m e
  | JString s => quote s
  | JArray items => 0x5B :: join comma (map stringify items) ++ [0x5D]
  | JObject members =>
      0x7B :: join comma
                (map (fun kv => quote (fst kv) ++ colon :: stringify (snd kv))
                     members) ++ [0x7D]
  end.

End Json.

(** [JSON.parse(x)] where [x] is what [localStorage.getItem] returned:
    [null] is first turned into the string ["null"]. *)
Definition JSON_parse (x : option jsstring) : exn + json :=
  Json.parse (default (lit "null") x).

Definition JSON_stringify (v : json) : jsstring := Json.stringify v.

(** ** JavaScript values read back from storage *)

(** [ToBoolean] *)
Definition truthy (v : json) : bool :=
  match v with
  | JNull => false
  | JBool b => b
  | JNumber m _ => negb (m =? 0)%Z
  | JString s => negb (bool_decide (s = []))
  | JArray _ | JObject _ => true
  end.

(** [a || b] *)
Definition or_else (a b : json) : json := if truthy a then a else b.

(** Equality of the numbers [m1 * 10^e1] and [m2 * 10^e2]. *)
Definition number_eqb (m1 e1 m2 e2 : Z) : bool :=
  let k := Z.min e1 e2 in
  (m1 * 10 ^ (e1 - k) =? m2 * 10 ^ (e2 - k))%Z.

(** [a === b] where [a] was read out of parsed JSON and [b] comes from
    elsewhere: two objects or arrays are then never the same object. *)
Definition strict_eqb (a b : json) : bool :=
  match a, b with
  | JNull, JNull => true
  | JBool x, JBool y => bool_decide (x = y)
  | JNumber m1 e1, JNumber m2 e2 => number_eqb m1 e1 m2 e2
  | JString x, JString y => bool_decide (x = y)
  | _, _ => false
  end.

(** The last member called [name], [None] ([undefined]) if there is none. *)
Fixpoint member (name : jsstring) (members : list (jsstring * json)) : option json :=
  match members with
  | [] => None
  | (k, v) :: rest =>
      match member name rest with
      | Some v' => Some v'
      | None => if bool_decide (k = name) then Some v else None
      end
  end.

(** [msg.id]: reading a property of [null] throws; numbers, booleans,
    strings and arrays have no property [id]. *)
Definition get_id (msg : json) : exn + option json :=
  match msg with
  | JNull => inl TypeError
  | JObject members => inr (member (lit "id") members)
  | _ => inr None
  end.

(** [messages.length] *)
Definition get_length (messages : json) : exn + option json :=
  match messages with
  | JNull => inl TypeError
  | JArray items => inr (Some (JNumber (Z.of_nat (length items)) 0))
  | JString s => inr (Some (JNumber (Z.of_nat (length s)) 0))
  | JObject members => inr (member (lit "length") members)
  | _ => inr None
  end.

(** ** The page

    The state the script reads and writes: [localStorage], the elements
    it looks up by id, [document.body], the element that has focus and the
    timers it has set. *)

Record Element := {
  classList : gset string;
  textContent : jsstring;
  value : jsstring;
  defaultValue : jsstring;
  disabled : bool;
  style_overflow : jsstring
}.

Definition set_classList (f : gset string -> gset string) (e : Element) : Element :=
  {| classList := f (classList e); textContent := textContent e;
     value := value e; defaultValue := defaultValue e;
     disabled := disabled e; style_overflow := style_overflow e |}.
Definition set_textContent (t : jsstring) (e : Element) : Element :=
  {| classList := classList e; textContent := t;
     value := value e; defaultValue := defaultValue e;
     disabled := disabled e; style_overflow := style_overflow e |}.
Definition set_value (t : jsstring) (e : Element) : Element :=
  {| classList := classList e; textContent := textContent e;
     value := t; defaultValue := defaultValue e;
     disabled := disabled e; style_overflow := style_overflow e |}.
Definition set_disabled (b : bool) (e : Element) : Element :=
  {| classList := classList e; textContent := textContent e;
     value := value e; defaultValue := defaultValue e;
     disabled := b; style_overflow := style_overflow e |}.
Definition set_style_overflow (t : jsstring) (e : Element) : Element :=
  {| classList := classList e; textContent := textContent e;
     value := value e; defaultValue := defaultValue e;
     disabled := disabled e; style_overflow := t |}.

(** [classList.add], [classList.remove], [className = ...] *)
Definition classList_add (c : string) : Element -> Element :=
  set_classList (fun s => s ∪ {[c]}).
Definition classList_remove (c : string) : Element -> Element :=
  set_classList (fun s => s ∖ {[c]}).
Definition set_className (tokens : list string) : Element -> Element :=
  set_classList (fun _ => list_to_set tokens).
Definition classList_contains (c : string) (e : Element) : bool :=
  bool_decide (c ∈ classList e).
Definition classList_toggle (c : string) (e : Element) : Element :=
  if classList_contains c e then classList_remove c e else classList_add c e.

(** The callbacks the script passes to [setTimeout]. *)
Inductive TimerCallback :=
| RemoveShake (fieldId : string)
| ClearErrorText (fieldId : string)
| CloseModal.

Record Page := {
  localStorage : gmap string jsstring;
  (** the elements [document.getElementById] finds *)
  document : gmap string Element;
  (** for the id of an input, what
      [input.parentElement.querySelector('.error-message')] finds *)
  errorSpans : gmap string Element;
  body : Element;
  (** the id of the element that has focus *)
  activeElement : option string;
  (** what [messageCount.textContent] counts: [messages.length] *)
  messageCount_count : option json;
  (** the messages [messagesList.innerHTML] shows a card for *)
  messagesList_cards : list json;
  (** the records of the submissions whose send attempt is pending *)
  pending : list json;
  timers : list (nat * TimerCallback)
}.

Definition set_localStorage (f : gmap string jsstring -> gmap string jsstring)
    (p : Page) : Page :=
  {| localStorage := f (localStorage p); document := document p;
     errorSpans := errorSpans p; body := body p;
     activeElement := activeElement p;
     messageCount_count := messageCount_count p;
     messagesList_cards := messagesList_cards p;
     pending := pending p; timers := timers p |}.
Definition set_document (f : gmap string Element -> gmap string Element)
    (p : Page) : Page :=
  {| localStorage := localStorage p; document := f (document p);
     errorSpans := errorSpans p; body := body p;
     activeElement := activeElement p;
     messageCount_count := messageCount_count p;
     messagesList_cards := messagesList_cards p;
     pending := pending p; timers := timers p |}.
Definition set_errorSpans (f : gmap string Element -> gmap string Element)
    (p : Page) : Page :=
  {| localStorage := localStorage p; document := document p;
     errorSpans := f (errorSpans p); body := body p;
     activeElement := activeElement p;
     messageCount_count := messageCount_count p;
     messagesList_cards := messagesList_cards p;
     pending := pending p; timers := timers p |}.
Definition set_body (f : Element -> Element) (p : Page) : Page :=
  {| localStorage := localStorage p; document := document p;
     errorSpans := errorSpans p; body := f (body p);
     activeElement := activeElement p;
     messageCount_count := messageCount_count p;
     messagesList_cards := messagesList_cards p;
     pending := pending p; timers := timers p |}.
Definition set_activeElement (a : option string) (p : Page) : Page :=
  {| localStorage := localStorage p; document := document p;
     errorSpans := errorSpans p; body := body p;
     activeElement := a;
     messageCount_count := messageCount_count p;
     messagesList_cards := messagesList_cards p;
     pending := pending p; timers := timers p |}.
Definition set_messageCount_count (c : option json) (p : Page) : Page :=
  {| localStorage := localStorage p; document := document p;
     errorSpans := errorSpans p; body := body p;
     activeElement := activeElement p;
     messageCount_count := c;
     messagesList_cards := messagesList_cards p;
     pending := pending p; timers := timers p |}.
Definition set_messagesList_cards (c : list json) (p : Page) : Page :=
  {| localStorage := localStorage p; document := document p;
     errorSpans := errorSpans p; body := body p;
     activeElement := activeElement p;
     messageCount_count := messageCount_count p;
     messagesList_cards := c;
     pending := pending p; timers := timers p |}.
Definition set_pending (f : list json -> list json) (p : Page) : Page :=
  {| localStorage := localStorage p; document := document p;
     errorSpans := errorSpans p; body := body p;
     activeElement := activeElement p;
     messageCount_count := messageCount_count p;
     messagesList_cards := messagesList_cards p;
     pending := f (pending p); timers := timers p |}.
Definition set_timers (f : list (nat * TimerCallback) -> list (nat * TimerCallback))
    (p : Page) : Page :=
  {| localStorage := localStorage p; document := document p;
     errorSpans := errorSpans p; body := body p;
     activeElement := activeElement p;
     messageCount_count := messageCount_count p;
     messagesList_cards := messagesList_cards p;
     pending := pending p; timers := f (timers p) |}.

(** ** Commands: a state monad over the page, with exceptions

    A command returns a value or throws, and leaves the page as it was
    when it returned or threw. *)

Definition M (A : Type) : Type := Page -> (exn + A) * Page.

#[global] Instance M_ret : MRet M := fun A a p => (inr a, p).
#[global] Instance M_bind : MBind M := fun A B f m p =>
  match m p with
  | (inr a, p') => f a p'
  | (inl e, p') => (inl e, p')
  end.

Definition throw {A} (e : exn) : M A := fun p => (inl e, p).
Definition lift {A} (r : exn + A) : M A := fun p => (r, p).
Definition gets {A} (f : Page -> A) : M A := fun p => (inr (f p), p).
Definition modify (f : Page -> Page) : M unit := fun p => (inr tt, f p).

(** [try { m } catch (e) { h }] *)
Definition catch {A} (m : M A) (h : exn -> M A) : M A := fun p =>
  match m p with
  | (inr a, p') => (inr a, p')
  | (inl e, p') => h e p'
  end.

Fixpoint forEach {A} (f : A -> M unit) (l : list A) : M unit :=
  match l with
  | [] => mret tt
  | x :: l' => f x ;; forEach f l'
  end.

(** *** The primitives of the page *)

Definition getItem (key : string) : M (option jsstring) :=
  gets (fun p => localStorage p !! key).
Definition setItem (key : string) (v : jsstring) : M unit :=
  modify (set_localStorage (insert key v)).
Definition removeItem (key : string) : M unit :=
  modify (set_localStorage (delete key)).

(** Reading a property of [document.getElementById(id)]: a [TypeError]
    when there is no such element. *)
Definition element_get {A} (id : string) (prop : Element -> A) : M A :=
  fun p => match document p !! id with
           | Some e => (inr (prop e), p)
           | None => (inl TypeError, p)
           end.

(** Writing to [document.getElementById(id)]: a [TypeError] when there is
    no such element. *)
Definition element_set (id : string) (f : Element -> Element) : M unit :=
  fun p => match document p !! id with
           | Some e => (inr tt, set_document (insert id (f e)) p)
           | None => (inl TypeError, p)
           end.

(** Writing to the error message element of an input, when there is
    one. *)
Definition errorSpan_set (input : string) (f : Element -> Element) : M unit :=
  modify (set_errorSpans (alter f input)).

Definition setTimeout (callback : TimerCallback) (delay : nat) : M unit :=
  modify (set_timers (fun ts => ts ++ [(delay, callback)])).

Definition focus (id : string) : M unit :=
  modify (set_activeElement (Some id)).

(** ** 6. Form validation: the page side *)

Definition showFieldError (input : string) (message : option jsstring) : M unit :=
  element_set input (classList_add "error");;
  element_set input (classList_remove "valid");;
  errorSpan_set input (fun errorSpan =>
    classList_add "visible" (set_textContent (default [] message) errorSpan));;
  element_set input (classList_add "shake");;
  setTimeout (RemoveShake input) 500.

Definition clearFieldError (input : string) (showValid : bool) : M unit :=
  element_set input (classList_remove "error");;
  (if showValid then element_set input (classList_add "valid")
   else element_set input (classList_remove "valid"));;
  errorSpan_set input (classList_remove "visible");;
  errorSpan ← gets (fun p => errorSpans p !! input);
  match errorSpan with
  | Some _ => setTimeout (ClearErrorText input) 200
  | None => mret tt
  end.

Definition fields : list string :=
  ["senderName"; "senderEmail"; "subject"; "message"]%string.

(** The two variables the loop of [validateForm] updates. *)
Record FormCheck := {
  isFormValid : bool;
  firstInvalidField : option string
}.

(** The body of the [forEach] of [validateForm]. *)
Definition validateForm_field (fieldId : string) (acc : FormCheck) : M FormCheck :=
  v ← element_get fieldId value;
  let result := validateField fieldId v in
  if negb (isValid result) then
    showFieldError fieldId (errorMessage result);;
    mret {| isFormValid := false;
            firstInvalidField :=
              match firstInvalidField acc with
              | None => Some fieldId
              | Some f => Some f
              end |}
  else
    clearFieldError fieldId true;;
    mret acc.

Fixpoint validateForm_loop (l : list string) (acc : FormCheck) : M FormCheck :=
  match l with
  | [] => mret acc
  | fieldId :: l' =>
      acc' ← validateForm_field fieldId acc;
      validateForm_loop l' acc'
  end.

Definition validateForm : M bool :=
  acc ← validateForm_loop fields
          {| isFormValid := true; firstInvalidField := None |};
  match firstInvalidField acc with
  | Some f => focus f
  | None => mret tt
  end;;
  mret (isFormValid acc).

(** The [blur] listener [setupRealtimeValidation] puts on a field. *)
Definition onBlur (fieldId : string) : M unit :=
  v ← element_get fieldId value;
  let result := validateField fieldId v in
  if negb (isValid result) && negb (bool_decide (trim v = [])) then
    showFieldError fieldId (errorMessage result)
  else if negb (bool_decide (trim v = [])) then
    clearFieldError fieldId true
  else mret tt.

(** The [input] listener [setupRealtimeValidation] puts on a field. *)
Definition onInput (fieldId : string) : M unit :=
  hasError ← element_get fieldId (classList_contains "error");
  if hasError : bool then
    v ← element_get fieldId value;
    if isValid (validateField fieldId v) then clearFieldError fieldId true
    else mret tt
  else mret tt.

(** ** The message store *)

Definition saveMessageToStorage (message : json) : M unit :=
  item ← getItem "contactMessages";
  parsed ← lift (JSON_parse item);
  let messages := or_else parsed (JArray []) in
  match messages with
  | JArray items =>
      (* messages.unshift(message) *)
      setItem "contactMessages" (JSON_stringify (JArray (message :: items)))
  | _ => throw TypeError
  end.

Definition getMessagesFromStorage : M json :=
  item ← getItem "contactMessages";
  parsed ← lift (JSON_parse item);
  mret (or_else parsed (JArray [])).

(** [messages.filter(msg => msg.id !== messageId)] on the items of an
    array; the callback throws when [msg] is [null], and an entry without
    [id] is kept ([undefined] is not [messageId]). *)
Fixpoint filter_id (messageId : json) (items : list json) : exn + list json :=
  match items with
  | [] => inr []
  | msg :: rest =>
      match get_id msg with
      | inl e => inl e
      | inr id =>
          let keep :=
            match id with
            | Some v => negb (strict_eqb v messageId)
            | None => true
            end in
          match filter_id messageId rest with
          | inl e => inl e
          | inr rest' => inr (if keep then msg :: rest' else rest')
          end
      end
  end.

(** [count === 0] *)
Definition is_zero (count : option json) : bool :=
  match count with
  | Some (JNumber m _) => (m =? 0)%Z
  | _ => false
  end.

(** [messages.map(msg => `... ${msg.id} ...`)]: one card per message. *)
Fixpoint render_cards (items : list json) : exn + list json :=
  match items with
  | [] => inr []
  | msg :: rest =>
      match get_id msg with
      | inl e => inl e
      | inr _ =>
          match render_cards rest with
          | inl e => inl e
          | inr cards => inr (msg :: cards)
          end
      end
  end.

Definition renderMessagesList : M unit :=
  messages ← getMessagesFromStorage;
  count ← lift (get_length messages);
  element_get "messageCount" (fun _ => tt);;
  modify (set_messageCount_count count);;
  element_set "clearMessagesBtn" (set_disabled (is_zero count));;
  if is_zero count then
    element_get "messagesList" (fun _ => tt);;
    modify (set_messagesList_cards []);;
    element_set "messagesEmpty" (classList_add "visible")
  else
    element_set "messagesEmpty" (classList_remove "visible");;
    cards ← lift (match messages with
                  | JArray items => render_cards items
                  | _ => inl TypeError
                  end);
    element_get "messagesList" (fun _ => tt);;
    modify (set_messagesList_cards cards).

(** [messages.filter(...)]: only an array has a [filter] method. *)
Definition filter_messages (messageId : json) (messages : json) : exn + json :=
  match messages with
  | JArray items =>
      match filter_id messageId items with
      | inl e => inl e
      | inr kept => inr (JArray kept)
      end
  | _ => inl TypeError
  end.

Definition deleteMessage (messageId : json) : M unit :=
  messages ← getMessagesFromStorage;
  messages ← lift (filter_messages messageId messages);
  setItem "contactMessages" (JSON_stringify messages);;
  renderMessagesList.

(** [confirmed] is the answer of the user to [confirm(...)]. *)
Definition clearAllMessages (confirmed : bool) : M unit :=
  if confirmed then
    removeItem "contactMessages";;
    renderMessagesList
  else mret tt.

(** ** 5. Contact modal functions *)

(** [document.getElementById('contactForm').reset()]: the controls of the
    form are the four fields, each goes back to its default value. *)
Definition contactForm_reset : M unit :=
  element_get "contactForm" (fun _ => tt);;
  modify (set_document (fun doc =>
    foldr (fun fieldId d => alter (fun e => set_value (defaultValue e) e) fieldId d)
          doc fields)).

Definition openModal : M unit :=
  element_set "contactModal" (classList_add "active");;
  modify (set_body (set_style_overflow (lit "hidden"))).

Definition closeModal : M unit :=
  element_set "contactModal" (classList_remove "active");;
  modify (set_body (set_style_overflow []));;
  contactForm_reset;;
  element_set "formStatus" (set_className ["form-status"%string]);;
  element_set "formStatus" (set_textContent []).

Definition openMessagesModal : M unit :=
  renderMessagesList;;
  element_set "messagesModal" (classList_add "active");;
  modify (set_body (set_style_overflow (lit "hidden"))).

Definition closeMessagesModal : M unit :=
  element_set "messagesModal" (classList_remove "active");;
  modify (set_body (set_style_overflow [])).

(** ** Form submission *)

(** How the promise of [emailjs.send] settles. *)
Inductive SendOutcome := Fulfilled | Rejected.

(** The record [handleSubmit] builds; [now] is [Date.now()] and [date] is
    [new Date().toISOString()]. *)
Definition formData (now : Z) (name email subject message date : jsstring) : json :=
  JObject [ (lit "id", JNumber now 0);
            (lit "name", JString (trim name));
            (lit "email", JString (trim email));
            (lit "subject", JString (trim subject));
            (lit "message", JString (trim message));
            (lit "date", JString date) ].

(** [handleSubmit] up to the call of [emailjs.send], whose promise is
    then pending with the record the callbacks have captured. *)
Definition handleSubmit (now : Z) (date : jsstring) : M unit :=
  element_set "formStatus" (set_className ["form-status"%string]);;
  element_set "formStatus" (set_textContent []);;
  ok ← validateForm;
  if negb ok then
    element_set "formStatus" (set_className ["form-status"; "error"]%string);;
    element_set "formStatus"
      (set_textContent (lit "Please fix the errors above and try again."))
  else
    name ← element_get "senderName" value;
    email ← element_get "senderEmail" value;
    subject ← element_get "subject" value;
    message ← element_get "message" value;
    element_set "submitBtn" (set_disabled true);;
    element_set "submitBtn" (set_textContent (lit "Sending..."));;
    modify (set_pending (fun l =>
      l ++ [formData now name email subject message date])).

(** The callback given to [then]. *)
Definition handleSubmit_then (data : json) : M unit :=
  saveMessageToStorage data;;
  element_set "formStatus" (set_className ["form-status"; "success"]%string);;
  element_set "formStatus"
    (set_textContent (lit "Message sent successfully! I'll get back to you soon."));;
  element_set "submitBtn" (set_textContent (lit "Send Message"));;
  element_set "submitBtn" (set_disabled false);;
  contactForm_reset;;
  forEach (fun fieldId =>
             element_get fieldId (fun _ => tt);;
             clearFieldError fieldId false) fields;;
  setTimeout CloseModal 2500.

(** The callback given to [catch]. *)
Definition handleSubmit_catch : M unit :=
  element_set "formStatus" (set_className ["form-status"; "error"]%string);;
  element_set "formStatus"
    (set_textContent
       (lit "Failed to send message. Please try again or email me directly."));;
  element_set "submitBtn" (set_textContent (lit "Send Message"));;
  element_set "submitBtn" (set_disabled false).

(** [promise.then(...).catch(...)] once the promise has settled: the
    [catch] callback also runs when the [then] callback throws. *)
Definition settled (outcome : SendOutcome) (data : json) : M unit :=
  match outcome with
  | Fulfilled => catch (handleSubmit_then data) (fun _ => handleSubmit_catch)
  | Rejected => handleSubmit_catch
  end.

(** The [i]-th pending send attempt settles. *)
Definition settle (i : nat) (outcome : SendOutcome) : M unit :=
  data ← gets (fun p => pending p !! i);
  match data with
  | Some data =>
      modify (set_pending (delete i));;
      settled outcome data
  | None => mret tt
  end.

(** ** 7. Dark mode toggle *)

(** [!savedTheme] *)
Definition falsy_string (s : option jsstring) : bool :=
  match s with
  | None | Some [] => true
  | Some (_ :: _) => false
  end.

(** [prefersDark] is
    [window.matchMedia('(prefers-color-scheme: dark)').matches]. *)
Definition initializeTheme (prefersDark : bool) : M unit :=
  savedTheme ← getItem "theme";
  if bool_decide (savedTheme = Some (lit "dark"))
     || (falsy_string savedTheme && prefersDark) then
    modify (set_body (classList_add "dark-mode"))
  else mret tt.

Definition toggleTheme : M unit :=
  modify (set_body (classList_toggle "dark-mode"));;
  isDarkMode ← gets (fun p => classList_contains "dark-mode" (body p));
  setItem "theme" (if isDarkMode : bool then lit "dark" else lit "light").

(** The listener for changes of the colour scheme of the operating
    system; [matches] is [e.matches]. *)
Definition onColorSchemeChange (matches : bool) : M unit :=
  savedTheme ← getItem "theme";
  if falsy_string savedTheme then
    if matches then modify (set_body (classList_add "dark-mode"))
    else modify (set_body (classList_remove "dark-mode"))
  else mret tt.

(** ** Timers and events *)

Definition run_callback (callback : TimerCallback) : M unit :=
  match callback with
  | RemoveShake fieldId => element_set fieldId (classList_remove "shake")
  | ClearErrorText fieldId =>
      errorSpan_set fieldId (fun errorSpan =>
        if classList_contains "visible" errorSpan then errorSpan
        else set_textContent [] errorSpan)
  | CloseModal => closeModal
  end.

(** The page is loaded again: the elements are those of [html], what
    was pending or scheduled is gone, [localStorage] is kept, and the
    script runs [initializeTheme]. *)
Definition load (html : Page) (prefersDark : bool) : M unit :=
  modify (fun p =>
    set_timers (fun _ => [])
      (set_pending (fun _ => [])
         (set_localStorage (fun _ => localStorage p) html)));;
  initializeTheme prefersDark.

(** What can happen to the page. *)
Inductive Event :=
| PageLoaded (html : Page) (prefersDark : bool)
| Typed (fieldId : string) (text : jsstring)
| Blurred (fieldId : string)
| Submitted (now : Z) (date : jsstring)
| SendSettled (i : nat) (outcome : SendOutcome)
| DeleteClicked (messageId : json)
| ClearAllClicked (confirmed : bool)
| ModalOpened
| ModalClosed
| MessagesModalOpened
| MessagesModalClosed
| ThemeToggled
| ColorSchemeChanged (matches : bool)
| TimerFired (i : nat).

Definition handle (ev : Event) : M unit :=
  match ev with
  | PageLoaded html prefersDark => load html prefersDark
  | Typed fieldId text =>
      element_set fieldId (set_value text);;
      onInput fieldId
  | Blurred fieldId => onBlur fieldId
  | Submitted now date => handleSubmit now date
  | SendSettled i outcome => settle i outcome
  | DeleteClicked messageId => deleteMessage messageId
  | ClearAllClicked confirmed => clearAllMessages confirmed
  | ModalOpened => openModal
  | ModalClosed => closeModal
  | MessagesModalOpened => openMessagesModal
  | MessagesModalClosed => closeMessagesModal
  | ThemeToggled => toggleTheme
  | ColorSchemeChanged matches => onColorSchemeChange matches
  | TimerFired i =>
      t ← gets (fun p => timers p !! i);
      match t with
      | Some (_, callback) =>
          modify (set_timers (delete i));;
          run_callback callback
      | None => mret tt
      end
  end.

(** An exception no handler catches ends the event; the page stays as
    the exception left it. *)
Definition step (p : Page) (ev : Event) : Page := snd (handle ev p).

Definition run (p : Page) (evs : list Event) : Page := foldl step p evs.

(** ** Induction over values, and what the round trip of JSON text needs *)

Section json_ind.
Variable P : json -> Prop.
Hypothesis Hnull : P JNull.
Hypothesis Hbool : forall b, P (JBool b).
Hypothesis Hnumber : forall m e, P (JNumber m e).
Hypothesis Hstring : forall s, P (JString s).
Hypothesis Harray : forall items, Forall P items -> P (JArray items).
Hypothesis Hobject :
  forall members, Forall (fun kv => P (snd kv)) members -> P (JObject members).

Fixpoint json_ind (v : json) : P v :=
  match v with
  | JNull => Hnull
  | JBool b => Hbool b
  | JNumber m e => Hnumber m e
  | JString s => Hstring s
  | JArray items =>
      Harray items
        ((fix all (l : list json) : Forall P l :=
            match l with
            | [] => List.Forall_nil P
            | x :: l' => List.Forall_cons P x l' (json_ind x) (all l')
            end) items)
  | JObject members =>
      Hobject members
        ((fix all (l : list (jsstring * json)) : Forall (fun kv => P (snd kv)) l :=
            match l with
            | [] => List.Forall_nil _
            | kv :: l' => List.Forall_cons _ kv l' (json_ind (snd kv)) (all l')
            end) members)
  end.
End json_ind.

(** The nesting depth of a value: what [Json.parse_value] needs as fuel. *)
Fixpoint depth (v : json) : nat :=
  match v with
  | JArray items => S (list_max (map depth items))
  | JObject members => S (list_max (map (fun kv => depth (snd kv)) members))
  | _ => 1
  end.

Module JsonText.
Import Json.

(** What may follow a value in JSON text written by [stringify]. *)
Definition closer (rest : jsstring) : Prop :=
  match rest with
  | [] => True
  | c :: _ => c = comma \/ c = 0x5D \/ c = 0x7D
  end.

Definition no_digit_ahead (rest : jsstring) : Prop :=
  match rest with
  | [] => True
  | c :: _ => digit_of c = None
  end.

(** The first character of the text of a value. *)
Definition value_start (c : code_unit) : bool :=
  (c =? 0x6E) || (c =? 0x74) || (c =? 0x66) || (c =? 0x2D)
  || ((0x30 <=? c) && (c <=? 0x39))
  || (c =? quotation_mark) || (c =? 0x5B) || (c =? 0x7B).

Definition parses (value : jsstring -> option (json * jsstring)) (v : json) : Prop :=
  forall rest, closer rest -> value (stringify v ++ rest) = Some (v, rest).

Definition member_text (kv : jsstring * json) : jsstring :=
  quote (fst kv) ++ colon :: stringify (snd kv).

End JsonText.

(** A parser that consumes at least one character when it succeeds. *)
Definition consumes {A} (parser : jsstring -> option (A * jsstring)) : Prop :=
  forall s a r, parser s = Some (a, r) -> (length r < length s)%nat.

(** ** What a command leaves as it was *)

(** [m] does not change what [f] reads off the page. *)
Definition preserves {A B} (f : Page -> B) (m : M A) : Prop :=
  forall p, f (snd (m p)) = f p.

(** What the store and the pending send attempts are made of. *)
Definition store_part (p : Page) : gmap string jsstring * list json :=
  (localStorage p, pending p).

(** Whether [msg.id === messageId]. *)
Definition has_id (messageId : json) (msg : json) : bool :=
  match get_id msg with
  | inr (Some v) => strict_eqb v messageId
  | _ => false
  end.

(** ** Example pages *)

Definition blank : Element :=
  {| classList := ∅; textContent := []; value := []; defaultValue := [];
     disabled := false; style_overflow := [] |}.

Definition example_page : Page :=
  {| localStorage := ∅;
     document :=
       list_to_map ((fun id => (id, blank)) <$>
         fields ++
         ["formStatus"; "submitBtn"; "contactForm"; "contactModal";
          "messagesModal"; "messagesList"; "messagesEmpty"; "messageCount";
          "clearMessagesBtn"]%string);
     errorSpans := list_to_map ((fun id => (id, blank)) <$> fields);
     body := blank;
     activeElement := None;
     messageCount_count := None;
     messagesList_cards := [];
     pending := [];
     timers := [] |}.

Definition example_record (id : Z) (name : string) : json :=
  formData id (lit name) (lit "jo@x.com") (lit "Hi there")
    (lit "This is a sufficiently long message.") (lit "2026-01-29T15:45:00.000Z").

Definition page_with_messages (items : list json) : Page :=
  set_localStorage
    (insert "contactMessages"%string (JSON_stringify (JArray items)))
    example_page.

(** The value of the field [f], and whether [validateField] accepts it. *)
Definition field_value (p : Page) (f : string) : jsstring :=
  default [] (value <$> document p !! f).

Definition field_valid (p : Page) (f : string) : bool :=
  isValid (validateField f (field_value p f)).

(** What the page shows for the field [f] when validation gave
    [result]: the error class and the visible message, or the valid
    class and no visible message. *)
Definition shows_result (p : Page) (f : string) (result : ValidationResult) : Prop :=
  exists e, document p !! f = Some e /\
    if isValid result then
      ("error"%string ∉ classList e) /\ ("valid"%string ∈ classList e)
      /\ (forall span, errorSpans p !! f = Some span ->
            "visible"%string ∉ classList span)
    else
      ("error"%string ∈ classList e) /\ ("valid"%string ∉ classList e)
      /\ (forall span, errorSpans p !! f = Some span ->
            ("visible"%string ∈ classList span)
            /\ textContent span = default [] (errorMessage result)).

Definition page_with_values (name email subject message : jsstring) : Page :=
  set_document
    (fun doc =>
       alter (set_value name) "senderName"%string
         (alter (set_value email) "senderEmail"%string
            (alter (set_value subject) "subject"%string
               (alter (set_value message) "message"%string doc))))
    example_page.

(** ** The stored collection and the clock *)

(** The text under [theme] in [localStorage], and what the script
    writes there. *)
Definition theme_slot (p : Page) : option jsstring :=
  localStorage p !! "theme"%string.

Definition theme_literal (t : option jsstring) : Prop :=
  t = None \/ t = Some (lit "dark") \/ t = Some (lit "light").

(** [stored] is the collection under [contactMessages]: the key is absent
    and the collection empty, or the key holds the text [JSON.stringify]
    writes for it. *)
Definition slot_holds (p : Page) (stored : list json) : Prop :=
  (localStorage p !! "contactMessages"%string = None /\ stored = [])
  \/ localStorage p !! "contactMessages"%string
     = Some (JSON_stringify (JArray stored)).

(** A record as [handleSubmit] builds it. *)
Definition is_record (r : json) : Prop :=
  exists now name email subject message date,
    r = formData now name email subject message date.

(** The id of a record, when it is an integer. *)
Definition record_id (r : json) : option Z :=
  match get_id r with
  | inr (Some (JNumber m 0%Z)) => Some m
  | _ => None
  end.

(** The clock readings of the submissions of a run, in order. *)
Definition readings (evs : list Event) : list Z :=
  omap (fun ev => match ev with Submitted now _ => Some now | _ => None end) evs.

(** The stored and the pending records of [p] are records of
    [handleSubmit] with pairwise distinct ids, all among [seen]. *)
Definition store_inv (seen : list Z) (p : Page) : Prop :=
  exists stored,
    slot_holds p stored
    /\ Forall is_record (stored ++ pending p)
    /\ NoDup (omap record_id (stored ++ pending p))
    /\ (forall n, n ∈ omap record_id (stored ++ pending p) -> n ∈ seen).

(** [m] leaves [localStorage] alone and adds at most one record, with id
    [now], to the pending sends. *)
Definition sends_at_most_one (now : Z) (m : M unit) : Prop :=
  forall p,
    localStorage (snd (m p)) = localStorage p
    /\ (pending (snd (m p)) = pending p
        \/ exists name email subject message date,
             pending (snd (m p)) =
             pending p ++ [formData now name email subject message date]).

(** The user fills in the form and submits it at the clock reading
    [now]. *)
Definition fill_and_submit (now : Z) : list Event :=
  [ Typed "senderName" (lit "Jo"); Typed "senderEmail" (lit "jo@x.com");
    Typed "subject" (lit "Hi there");
    Typed "message" (lit "This is a sufficiently long message.");
    Submitted now (lit "2026-01-29T15:45:00.000Z") ].

(** ** The claims of the specification that the code does not meet, as
    they are stated *)

(** Text under [contactMessages] that is not JSON is read as the empty
    collection by [listAll] and by [append]. *)
Definition unparsable_store_is_empty : Prop :=
  forall (p : Page) (text : jsstring) (message : json),
    localStorage p !! "contactMessages"%string = Some text ->
    JSON_parse (Some text) = inl SyntaxError ->
    fst (getMessagesFromStorage p) = inr (JArray [])
    /\ fst (getMessagesFromStorage (snd (saveMessageToStorage message p)))
       = inr (JArray [message]).


(** At the moment the record of a pending send is inserted, no stored
    entry has its id: what the specification says of every state reached
    with a clock that does not go back. *)
Definition inserted_id_unique_for (clock : Z -> Z -> Prop) : Prop :=
  forall (p0 : Page) (evs : list Event) (i : nat) (data : json) (now : Z)
         (items : list json),
    localStorage p0 !! "contactMessages"%string = None ->
    pending p0 = [] ->
    StronglySorted clock (readings evs) ->
    pending (run p0 evs) !! i = Some data ->
    record_id data = Some now ->
    fst (getMessagesFromStorage (run p0 evs)) = inr (JArray items) ->
    Forall (fun msg => has_id (JNumber now 0) msg = false) items.

(** ** The rule order of the specification

    The specification of the validator, written down from its words: the
    four kinds of rule in their fixed order, when each one fails on a
    trimmed value, and the first one that does. *)

Module ValidatorSpec.

Inductive RuleKind := Required | MinLength | MaxLength | Pattern.

Definition rule_order : list RuleKind :=
  [Required; MinLength; MaxLength; Pattern].

Definition rule_fails (rules : Rules) (trimmed : jsstring) (k : RuleKind) : bool :=
  match k with
  | Required => required rules && bool_decide (trimmed = [])
  | MinLength =>
      match minLength rules with
      | Some n => (length trimmed <? n)%nat
      | None => false
      end
  | MaxLength =>
      match maxLength rules with
      | Some n => (n <? length trimmed)%nat
      | None => false
      end
  | Pattern =>
      match pattern rules with
      | Some re => negb (regex_test trimmed re)
      | None => false
      end
  end.

Definition rule_message (rules : Rules) (k : RuleKind) : option jsstring :=
  match k with
  | Required => msg_required (errorMessages rules)
  | MinLength => msg_minLength (errorMessages rules)
  | MaxLength => msg_maxLength (errorMessages rules)
  | Pattern => msg_pattern (errorMessages rules)
  end.

Definition first_failing (rules : Rules) (trimmed : jsstring) : option RuleKind :=
  List.find (rule_fails rules trimmed) rule_order.

Definition verdict (rules : Rules) (raw : jsstring) : ValidationResult :=
  match first_failing rules (trim raw) with
  | Some k => invalid_result (rule_message rules k)
  | None => valid_result
  end.

End ValidatorSpec.

(** * Properties *)

(** ** Trimming *)

Lemma dropWhile_all {A} (p : A -> bool) (l : list A) :
  Forall (fun x => p x = true) l -> dropWhile p l = [].
Proof. induction 1 as [|x l Hx _ IH]; simpl; [done|]. by rewrite Hx. Qed.

Lemma dropWhile_app_all {A} (p : A -> bool) (pre l : list A) :
  Forall (fun x => p x = true) pre -> dropWhile p (pre ++ l) = dropWhile p l.
Proof. induction 1 as [|x pre Hx _ IH]; simpl; [done|]. by rewrite Hx. Qed.

Lemma dropWhile_app_stop {A} (p : A -> bool) (l m : list A) :
  dropWhile p l <> [] -> dropWhile p (l ++ m) = dropWhile p l ++ m.
Proof.
  induction l as [|x l IH]; simpl; [done|].
  destruct (p x); [exact IH | done].
Qed.

Lemma dropWhile_nil_all {A} (p : A -> bool) (l : list A) :
  dropWhile p l = [] -> Forall (fun x => p x = true) l.
Proof.
  induction l as [|x l IH]; simpl; [constructor|].
  destruct (p x) eqn:Hx; [|done]. intros H. constructor; auto.
Qed.

Lemma trim_all_white (s : jsstring) : all_white s -> trim s = [].
Proof.
  intros H. unfold trim, trimEnd, trimStart.
  by rewrite (dropWhile_all _ _ H).
Qed.

Lemma trim_pad (pre s post : jsstring) :
  all_white pre -> all_white post -> trim (pre ++ s ++ post) = trim s.
Proof.
  intros Hpre Hpost. unfold trim, trimEnd, trimStart.
  rewrite (dropWhile_app_all _ _ _ Hpre).
  destruct (dropWhile isWhiteSpace s) as [|x s'] eqn:Hs.
  - apply dropWhile_nil_all in Hs.
    rewrite (dropWhile_all isWhiteSpace (s ++ post)); [done|].
    apply Forall_app; split; assumption.
  - rewrite dropWhile_app_stop by (rewrite Hs; done).
    rewrite Hs, rev_app_distr.
    rewrite dropWhile_app_all; [done|].
    apply Forall_rev. exact Hpost.
Qed.

(** ** The Field Validator *)

Import ValidatorSpec.

Lemma truthy_length_fails_min (n : option nat) (k : nat) :
  truthy_length n && (k <? length_of n)%nat =
  match n with Some m => (k <? m)%nat | None => false end.
Proof. destruct n as [[|m]|]; simpl; reflexivity. Qed.

Lemma truthy_length_fails_max (n : option nat) (k : nat) :
  n <> Some 0%nat ->
  truthy_length n && (length_of n <? k)%nat =
  match n with Some m => (m <? k)%nat | None => false end.
Proof. destruct n as [[|m]|]; simpl; try reflexivity. congruence. Qed.

(** [validateRules] returns the verdict of the first rule, in the order of
    the specification, that fails on the trimmed value.  A maximum length
    of zero is falsy in the source and so is no rule at all; no field is
    configured that way. *)
Lemma validateRules_verdict (rules : Rules) (raw : jsstring) :
  maxLength rules <> Some 0%nat ->
  validateRules rules raw = verdict rules raw.
Proof.
  intros Hmax. unfold validateRules, verdict, first_failing, rule_order.
  cbn [List.find rule_fails rule_message].
  rewrite truthy_length_fails_min, (truthy_length_fails_max _ _ Hmax).
  destruct (required rules && bool_decide (trim raw = [])); [reflexivity|].
  destruct (minLength rules) as [n|];
    [destruct (length (trim raw) <? n)%nat; [reflexivity|] |];
    (destruct (maxLength rules) as [m|];
      [destruct (m <? length (trim raw))%nat; [reflexivity|] |]);
    (destruct (pattern rules) as [re|];
      [destruct (negb (regex_test (trim raw) re)); reflexivity | reflexivity]).
Qed.

Lemma validationRules_configured (fieldId : string) (rules : Rules) :
  validationRules !! fieldId = Some rules ->
  required rules = true /\ maxLength rules <> Some 0%nat /\
  fieldId ∈ fields.
Proof.
  unfold validationRules, fields.
  rewrite !lookup_insert_Some, lookup_singleton_Some.
  intros H. repeat (destruct H as [H|H]; [|try destruct H as [_ H]]);
    destruct H as [<- <-]; cbn; (split; [reflexivity|split; [discriminate|]]);
    set_solver.
Qed.

(** C1. For a field with configured rules, [validateField] checks, on the
    trimmed value, required, then minimum length, then maximum length,
    then the pattern, and returns the message of the first rule that
    fails: its result is the verdict of the first failing rule of the
    fixed order, whatever the later rules would say.  A value of white
    space only is empty for the required check. *)
Theorem validateField_first_failing_rule (fieldId : string) (rules : Rules)
    (raw : jsstring) :
  validationRules !! fieldId = Some rules ->
  validateField fieldId raw =
    match List.find (rule_fails rules (trim raw))
            [Required; MinLength; MaxLength; Pattern] with
    | Some k => invalid_result (rule_message rules k)
    | None => valid_result
    end
  /\ (all_white raw ->
      validateField fieldId raw = invalid_result (msg_required (errorMessages rules))).
Proof.
  intros Hrules.
  destruct (validationRules_configured _ _ Hrules) as (Hreq & Hmax & _).
  unfold validateField. rewrite Hrules.
  rewrite (validateRules_verdict _ _ Hmax). split; [reflexivity|].
  intros Hws. unfold verdict, first_failing, rule_order.
  rewrite (trim_all_white _ Hws). cbn. by rewrite Hreq.
Qed.

Lemma validateField_first_failing_rule_witness :
  validateField "subject" (lit "  ab ") =
    invalid_result (Some (lit "Subject must be at least 3 characters"))
  /\ validateField "subject" [0x20; 0x09; 0xA0] =
    invalid_result (Some (lit "Please enter a subject")).
Proof.
  assert (Hr : validationRules !! "subject"%string =
               Some {| required := true; minLength := Some 3%nat;
                       maxLength := Some 200%nat; pattern := None;
                       errorMessages := {|
                         msg_required := Some (lit "Please enter a subject");
                         msg_minLength := Some (lit "Subject must be at least 3 characters");
                         msg_maxLength := Some (lit "Subject must be less than 200 characters");
                         msg_pattern := None |} |}) by reflexivity.
  split.
  - rewrite (proj1 (validateField_first_failing_rule _ _ (lit "  ab ") Hr)).
    reflexivity.
  - apply (proj2 (validateField_first_failing_rule _ _ _ Hr)).
    repeat constructor.
Defined.

(** C7. For the subject field, a value whose trimmed length is between 3
    and 200 is valid, and a value whose trimmed length is 2 or 201 is
    not. *)
Theorem subject_length_bounds (raw : jsstring) :
  ((3 <= length (trim raw) <= 200)%nat ->
   isValid (validateField "subject" raw) = true)
  /\ ((length (trim raw) = 2 \/ length (trim raw) = 201)%nat ->
      isValid (validateField "subject" raw) = false).
Proof.
  assert (Hv : validateField "subject" raw =
               validateRules {| required := true; minLength := Some 3%nat;
                       maxLength := Some 200%nat; pattern := None;
                       errorMessages := {|
                         msg_required := Some (lit "Please enter a subject");
                         msg_minLength := Some (lit "Subject must be at least 3 characters");
                         msg_maxLength := Some (lit "Subject must be less than 200 characters");
                         msg_pattern := None |} |} raw) by reflexivity.
  rewrite Hv, validateRules_verdict by discriminate.
  unfold verdict, first_failing, rule_order.
  cbn [List.find rule_fails required minLength maxLength pattern andb].
  assert (Hd : bool_decide (trim raw = []) = (length (trim raw) =? 0)%nat)
    by (destruct (trim raw); reflexivity).
  rewrite Hd. generalize (length (trim raw)) as n. intros n.
  split; intros H;
    destruct (Nat.eqb_spec n 0), (Nat.ltb_spec n 3), (Nat.ltb_spec 200 n);
    try lia; reflexivity.
Qed.

Lemma subject_length_bounds_witness :
  isValid (validateField "subject" (lit "  abc  ")) = true
  /\ isValid (validateField "subject" (lit " ab ")) = false.
Proof.
  split.
  - apply (proj1 (subject_length_bounds (lit "  abc  "))). vm_compute. lia.
  - apply (proj2 (subject_length_bounds (lit " ab "))). left. reflexivity.
Defined.

(** C10. For a field with configured rules, adding white space before or
    after a value does not change what [validateField] returns: every
    check, the pattern included, is made on the trimmed value. *)
Theorem validateField_padding_invariant (fieldId : string) (rules : Rules)
    (pre raw post : jsstring) :
  validationRules !! fieldId = Some rules ->
  all_white pre -> all_white post ->
  validateField fieldId (pre ++ raw ++ post) = validateField fieldId raw.
Proof.
  intros Hrules Hpre Hpost. unfold validateField. rewrite Hrules.
  unfold validateRules. by rewrite (trim_pad _ _ _ Hpre Hpost).
Qed.

Lemma validateField_padding_invariant_witness :
  validateField "senderEmail" (lit "  " ++ lit "a@b.co" ++ [0x0A; 0xA0]) =
  validateField "senderEmail" (lit "a@b.co").
Proof.
  eapply (validateField_padding_invariant "senderEmail" _ (lit "  ")
            (lit "a@b.co") [0x0A; 0xA0]).
  - reflexivity.
  - repeat constructor.
  - repeat constructor.
Defined.

(** ** JSON text: what [stringify] writes, [parse] reads back *)

Module JsonFacts.
Import Decimal Json JsonText.

Lemma closer_no_digit rest : closer rest -> no_digit_ahead rest.
Proof.
  destruct rest as [|c r]; [done|]. intros [->|[->| ->]]; reflexivity.
Qed.

Lemma read_digits_print (d : uint) (rest : jsstring) :
  no_digit_ahead rest -> read_digits (print_digits d ++ rest) = (d, rest).
Proof.
  intros Hrest. induction d as [|d IH|d IH|d IH|d IH|d IH|d IH|d IH|d IH|d IH|d IH];
    [destruct rest as [|c r]; [reflexivity|]; cbn in *; by rewrite Hrest | ..];
    simpl; rewrite IH; reflexivity.
Qed.

Lemma nzhead_not_D0 (u v : uint) : nzhead u <> D0 v.
Proof. induction u; cbn; congruence. Qed.

Lemma to_uint_leading_zero (n : N) (u : uint) :
  N.to_uint n = D0 u -> u = Nil.
Proof.
  intros H.
  assert (Hn : N.to_uint n = unorm (N.to_uint n)).
  { rewrite <- DecimalN.Unsigned.to_of, DecimalN.Unsigned.of_to. reflexivity. }
  rewrite H in Hn. rewrite unorm_D0 in Hn. unfold unorm in Hn.
  destruct (nzhead u) eqn:Hz; try congruence.
  exfalso. symmetry in Hn. by apply nzhead_not_D0 in Hz || (rewrite <- Hz in Hn; apply nzhead_not_D0 in Hn).
Qed.

Lemma to_uint_nonnil (n : N) : N.to_uint n <> Nil.
Proof.
  destruct n; cbn; [discriminate|]. apply DecimalPos.Unsigned.to_uint_nonnil.
Qed.

Lemma read_digits1_print (n : N) (rest : jsstring) :
  no_digit_ahead rest ->
  read_digits1 (print_N n ++ rest) = Some (N.to_uint n, rest).
Proof.
  intros Hrest. unfold read_digits1, print_N.
  rewrite (read_digits_print _ _ Hrest).
  pose proof (to_uint_nonnil n). by destruct (N.to_uint n).
Qed.

Lemma read_int_part_print (n : N) (rest : jsstring) :
  no_digit_ahead rest ->
  read_int_part (print_N n ++ rest) = Some (N.to_uint n, rest).
Proof.
  intros Hrest. pose proof (read_digits1_print n rest Hrest) as Hd.
  pose proof (to_uint_nonnil n) as Hnil. unfold print_N in *.
  destruct (N.to_uint n) as [|u|u|u|u|u|u|u|u|u|u] eqn:E; try done.
  apply to_uint_leading_zero in E. subst u. reflexivity.
Qed.

Lemma read_minus_digits (n : N) (rest : jsstring) :
  read_minus (print_N n ++ rest) = (false, print_N n ++ rest).
Proof.
  pose proof (to_uint_nonnil n) as Hnil. unfold print_N.
  by destruct (N.to_uint n).
Qed.

Lemma read_exponent_sign_digits (n : N) (rest : jsstring) :
  read_exponent_sign (print_N n ++ rest) = (false, print_N n ++ rest).
Proof.
  pose proof (to_uint_nonnil n) as Hnil. unfold print_N.
  by destruct (N.to_uint n).
Qed.

Lemma signed_abs (z : Z) : signed (z <? 0)%Z (Z.abs_N z) = z.
Proof. unfold signed. destruct (Z.ltb_spec z 0); lia. Qed.

Lemma read_minus_print_Z (z : Z) (rest : jsstring) :
  read_minus (print_Z z ++ rest) = ((z <? 0)%Z, print_N (Z.abs_N z) ++ rest).
Proof.
  unfold print_Z. destruct (z <? 0)%Z; [reflexivity|]. apply read_minus_digits.
Qed.

Lemma read_exponent_sign_print_Z (z : Z) (rest : jsstring) :
  read_exponent_sign (print_Z z ++ rest) =
  ((z <? 0)%Z, print_N (Z.abs_N z) ++ rest).
Proof.
  unfold print_Z. destruct (z <? 0)%Z; [reflexivity|].
  apply read_exponent_sign_digits.
Qed.

Lemma read_fraction_closer (rest : jsstring) :
  closer rest -> read_fraction rest = Some (Nil, rest).
Proof. destruct rest as [|c r]; [done|]. by intros [->|[->| ->]]. Qed.

Lemma read_exponent_closer (rest : jsstring) :
  closer rest -> read_exponent rest = Some (0%Z, rest).
Proof. destruct rest as [|c r]; [done|]. by intros [->|[->| ->]]. Qed.

Lemma parse_number_print (m e : Z) (rest : jsstring) :
  closer rest ->
  parse_number (print_number m e ++ rest) = Some (JNumber m e, rest).
Proof.
  intros Hrest. unfold parse_number, print_number.
  destruct (Z.eqb_spec e 0) as [->|He].
  - rewrite read_minus_print_Z.
    rewrite (read_int_part_print _ _ (closer_no_digit _ Hrest)). cbn [mbind option_bind].
    rewrite (read_fraction_closer _ Hrest). cbn [mbind option_bind].
    rewrite (read_exponent_closer _ Hrest). cbn [mbind option_bind nb_digits].
    rewrite DecimalN.Unsigned.of_to. cbn [N.of_uint Pos.of_uint N.of_nat].
    replace (Z.abs_N m * 10 ^ N.of_nat 0 + 0) with (Z.abs_N m)
      by (change (N.of_nat 0) with 0; lia).
    rewrite signed_abs. reflexivity.
  - rewrite <- app_assoc. rewrite read_minus_print_Z.
    rewrite read_int_part_print by reflexivity. cbn [mbind option_bind].
    rewrite <- app_comm_cons.
    change (read_fraction (0x65 :: ?t)) with (Some (Nil, 0x65 :: t)).
    cbn [mbind option_bind].
    change (read_exponent (0x65 :: ?t)) with
      (let '(neg, s'') := read_exponent_sign t in
       read_digits1 s'' ≫= λ '(d, r), Some (signed neg (N.of_uint d), r)).
    rewrite read_exponent_sign_print_Z.
    rewrite (read_digits1_print _ _ (closer_no_digit _ Hrest)).
    cbn [mbind option_bind nb_digits].
    rewrite !DecimalN.Unsigned.of_to. cbn [N.of_uint Pos.of_uint N.of_nat].
    replace (Z.abs_N m * 10 ^ N.of_nat 0 + 0) with (Z.abs_N m)
      by (change (N.of_nat 0) with 0; lia).
    rewrite !signed_abs. do 3 f_equal. change (Z.of_nat 0) with 0%Z. lia.
Qed.

(** *** Strings *)

Lemma hex_value_hex_digit (d : N) : d < 16 -> hex_value (hex_digit d) = Some d.
Proof.
  intros Hd. unfold hex_digit, hex_value.
  destruct (N.ltb_spec d 10).
  - replace ((48 <=? 48 + d) && (48 + d <=? 57)) with true.
    + f_equal. lia.
    + symmetry. apply andb_true_iff. split; apply N.leb_le; lia.
  - replace ((48 <=? 97 + (d - 10)) && (97 + (d - 10) <=? 57)) with false.
    + replace ((97 <=? 97 + (d - 10)) && (97 + (d - 10) <=? 102)) with true.
      * f_equal. lia.
      * symmetry. apply andb_true_iff. split; apply N.leb_le; lia.
    + symmetry. apply andb_false_iff. right. apply N.leb_gt. lia.
Qed.

Lemma hex_digits_compose (c : N) :
  c < 65536 ->
  ((c / 4096 * 16 + (c / 256) mod 16) * 16 + (c / 16) mod 16) * 16 + c mod 16 = c.
Proof.
  intros Hc.
  pose proof (N.Div0.div_mod c 16) as H1.
  pose proof (N.Div0.div_mod (c / 16) 16) as H2.
  pose proof (N.Div0.div_mod (c / 256) 16) as H3.
  rewrite (N.Div0.div_div c 16 16) in H2.
  rewrite (N.Div0.div_div c 256 16) in H3.
  change (16 * 16) with 256 in H2. change (256 * 16) with 4096 in H3.
  lia.
Qed.

Lemma parse_string_plain (c : code_unit) (s : jsstring) :
  c <> quotation_mark -> c <> reverse_solidus -> 0x20 <= c ->
  parse_string (c :: s) =
  parse_string s ≫= λ '(str, r), Some (c :: str, r).
Proof.
  intros Hq Hb Hc. cbn [parse_string].
  rewrite (proj2 (N.eqb_neq _ _) Hq), (proj2 (N.eqb_neq _ _) Hb).
  by rewrite (proj2 (N.ltb_ge _ _) Hc).
Qed.

Lemma parse_string_unicode (c : code_unit) (s : jsstring) :
  c < 65536 ->
  parse_string (unicode_escape c ++ s) =
  parse_string s ≫= λ '(str, r), Some (c :: str, r).
Proof.
  intros Hc. unfold unicode_escape. rewrite <- !app_comm_cons, app_nil_l.
  cbn [parse_string].
  change (reverse_solidus =? quotation_mark) with false.
  change (reverse_solidus =? reverse_solidus) with true.
  change (117 =? 117) with true. cbv iota.
  rewrite !hex_value_hex_digit;
    try (apply N.mod_lt; lia);
    try (apply N.Div0.div_lt_upper_bound; lia).
  cbn [mbind option_bind]. by rewrite (hex_digits_compose c Hc).
Qed.

Lemma parse_string_escape_unit (c : code_unit) (s : jsstring) :
  parse_string (escape_unit c ++ s) =
  parse_string s ≫= λ '(str, r), Some (c :: str, r).
Proof.
  unfold escape_unit.
  repeat match goal with
  | |- context [if ?c =? ?k then _ else _] =>
      destruct (N.eqb_spec c k) as [->|?]; [reflexivity|]
  end.
  destruct ((c <? 32) || is_high_surrogate c || is_low_surrogate c) eqn:Hu.
  - apply parse_string_unicode.
    unfold is_high_surrogate, is_low_surrogate in Hu.
    repeat (apply orb_true_iff in Hu; destruct Hu as [Hu|Hu]).
    + apply N.ltb_lt in Hu. lia.
    + apply andb_true_iff in Hu. destruct Hu as [_ Hu]. apply N.leb_le in Hu. lia.
    + apply andb_true_iff in Hu. destruct Hu as [_ Hu]. apply N.leb_le in Hu. lia.
  - apply orb_false_iff in Hu. destruct Hu as [Hu _].
    apply orb_false_iff in Hu. destruct Hu as [Hu _].
    apply N.ltb_ge in Hu. by apply parse_string_plain.
Qed.

Lemma parse_string_escape_length (n : nat) (s rest : jsstring) :
  (length s <= n)%nat ->
  parse_string (escape s ++ quotation_mark :: rest) = Some (s, rest).
Proof.
  revert s. induction n as [|n IH]; intros s Hn.
  - destruct s; [reflexivity | cbn in Hn; lia].
  - destruct s as [|c s]; [reflexivity|]. cbn [escape].
    assert (Hdef : parse_string ((escape_unit c ++ escape s) ++ quotation_mark :: rest)
                   = Some (c :: s, rest)).
    { rewrite <- app_assoc, parse_string_escape_unit.
      rewrite IH by (cbn in Hn; lia). reflexivity. }
    destruct (is_high_surrogate c) eqn:Hh; [|exact Hdef].
    destruct s as [|c' s'].
    + rewrite parse_string_escape_unit. reflexivity.
    + destruct (is_low_surrogate c') eqn:Hl; [|exact Hdef].
      unfold is_high_surrogate in Hh. unfold is_low_surrogate in Hl.
      apply andb_true_iff in Hh. destruct Hh as [Hh _]. apply N.leb_le in Hh.
      apply andb_true_iff in Hl. destruct Hl as [Hl _]. apply N.leb_le in Hl.
      rewrite <- !app_comm_cons.
      rewrite parse_string_plain by (unfold quotation_mark, reverse_solidus; lia).
      rewrite parse_string_plain by (unfold quotation_mark, reverse_solidus; lia).
      rewrite IH by (cbn in Hn; lia). reflexivity.
Qed.

Lemma parse_string_quote (s rest : jsstring) :
  parse_string (escape s ++ quotation_mark :: rest) = Some (s, rest).
Proof. by apply (parse_string_escape_length (length s)). Qed.

(** *** Values *)

Ltac start_cases H :=
  unfold value_start in H;
  repeat (apply orb_true_iff in H; destruct H as [H|H]);
  try (apply N.eqb_eq in H; subst);
  try (apply andb_true_iff in H; destruct H as [?%N.leb_le ?%N.leb_le]).

Lemma value_start_not_ws (c : code_unit) :
  value_start c = true -> is_json_ws c = false.
Proof.
  intros H. start_cases H; try reflexivity.
  unfold is_json_ws. rewrite !(proj2 (N.eqb_neq _ _)) by lia. reflexivity.
Qed.

Lemma value_start_not_close (c : code_unit) :
  value_start c = true -> (c =? 0x5D) = false /\ (c =? 0x7D) = false.
Proof.
  intros H. start_cases H; try (split; reflexivity).
  rewrite !(proj2 (N.eqb_neq _ _)) by lia. by split.
Qed.

Lemma print_digits_head (d : uint) :
  d <> Nil -> exists c t, print_digits d = c :: t /\ 0x30 <= c <= 0x39.
Proof. destruct d; [done|..]; intros _; eexists _, _; (split; [reflexivity|lia]). Qed.

Lemma print_number_head (m e : Z) :
  exists c t, print_number m e = c :: t /\ (c = 0x2D \/ 0x30 <= c <= 0x39).
Proof.
  assert (HZ : forall z, exists c t, print_Z z = c :: t /\ (c = 0x2D \/ 0x30 <= c <= 0x39)).
  { intros z. unfold print_Z. destruct (z <? 0)%Z; [eauto|].
    destruct (print_digits_head _ (to_uint_nonnil (Z.abs_N z))) as (c & t & Hc & ?).
    unfold print_N. rewrite Hc. eauto. }
  unfold print_number. destruct (HZ m) as (c & t & Hc & ?).
  destruct (e =? 0)%Z; rewrite Hc; eauto.
Qed.

Lemma stringify_head (v : json) :
  exists c t, stringify v = c :: t /\ value_start c = true.
Proof.
  destruct v as [|[]|m e|s|items|members]; try (eexists _, _; split; reflexivity).
  destruct (print_number_head m e) as (c & t & Hc & H).
  exists c, t. split; [exact Hc|]. unfold value_start.
  destruct H as [->|[H1 H2]]; [reflexivity|].
  apply N.leb_le in H1, H2. rewrite H1, H2. cbn. by rewrite !orb_true_r.
Qed.

Lemma skip_ws_not_ws (c : code_unit) (t : jsstring) :
  is_json_ws c = false -> skip_ws (c :: t) = c :: t.
Proof. intros H. unfold skip_ws. cbn [dropWhile]. by rewrite H. Qed.

Lemma skip_ws_stringify (v : json) (rest : jsstring) :
  skip_ws (stringify v ++ rest) = stringify v ++ rest.
Proof.
  destruct (stringify_head v) as (c & t & -> & H).
  cbn. by rewrite (value_start_not_ws _ H).
Qed.

Lemma parse_value_number (fuel : nat) (c : code_unit) (t : jsstring) :
  c = 0x2D \/ 0x30 <= c <= 0x39 ->
  parse_value (S fuel) (c :: t) = parse_number (c :: t).
Proof.
  intros H. cbn [parse_value]. unfold quotation_mark.
  rewrite !(proj2 (N.eqb_neq _ _)) by lia. reflexivity.
Qed.

Lemma join_two (sep : code_unit) (p q : jsstring) (l : list jsstring) :
  join sep (p :: q :: l) = p ++ sep :: join sep (q :: l).
Proof. reflexivity. Qed.

Lemma skip_ws_join (items : list json) (rest : jsstring) :
  items <> [] ->
  skip_ws (join comma (map stringify items) ++ rest) =
  join comma (map stringify items) ++ rest.
Proof.
  destruct items as [|x [|y items]]; [done|..]; intros _.
  - apply skip_ws_stringify.
  - cbn [map]. rewrite join_two, <- app_assoc. apply skip_ws_stringify.
Qed.

Lemma parse_elements_step (value : jsstring -> option (json * jsstring))
    (n : nat) (x : json) (s t : jsstring) (c : code_unit) :
  value s = Some (x, c :: t) -> is_json_ws c = false ->
  parse_elements value (S n) s =
  if c =? comma then
    parse_elements value n (skip_ws t) ≫= λ '(vs, r), Some (x :: vs, r)
  else if c =? 0x5D then Some ([x], t) else None.
Proof.
  intros Hv Hc. cbn [parse_elements]. rewrite Hv. cbn [mbind option_bind].
  by rewrite (skip_ws_not_ws c) by exact Hc.
Qed.

Lemma parse_elements_print (value : jsstring -> option (json * jsstring))
    (items : list json) (n : nat) (rest : jsstring) :
  items <> [] -> (length items <= n)%nat ->
  Forall (parses value) items ->
  parse_elements value n (join comma (map stringify items) ++ 0x5D :: rest) =
  Some (items, rest).
Proof.
  revert n. induction items as [|x items IH]; intros n Hne Hn Hall; [done|].
  destruct n as [|n]; [cbn in Hn; lia|].
  apply Forall_cons in Hall. destruct Hall as [Hx Hall].
  destruct items as [|y items].
  - erewrite parse_elements_step;
      [|apply (Hx (0x5D :: rest)); cbn; auto|reflexivity].
    reflexivity.
  - cbn [map]. rewrite join_two, <- app_assoc, <- app_comm_cons.
    erewrite parse_elements_step;
      [|apply (Hx (comma :: _)); cbn; auto|reflexivity].
    rewrite N.eqb_refl.
    change (stringify y :: map stringify items) with (map stringify (y :: items)).
    rewrite skip_ws_join by done.
    rewrite IH; [reflexivity|done|cbn in *; lia|exact Hall].
Qed.

Lemma parse_members_step (value : jsstring -> option (json * jsstring))
    (n : nat) (k : jsstring) (v : json) (s t : jsstring) (c : code_unit) :
  value (skip_ws s) = Some (v, c :: t) -> is_json_ws c = false ->
  parse_members value (S n) (quote k ++ colon :: s) =
  if c =? comma then
    parse_members value n (skip_ws t) ≫= λ '(ms, r), Some ((k, v) :: ms, r)
  else if c =? 0x7D then Some ([(k, v)], t) else None.
Proof.
  intros Hv Hc. unfold quote. rewrite <- app_comm_cons, <- app_assoc.
  cbn [parse_members]. rewrite N.eqb_refl.
  rewrite <- app_comm_cons, app_nil_l, parse_string_quote.
  cbn [mbind option_bind].
  rewrite (skip_ws_not_ws colon) by reflexivity. rewrite N.eqb_refl.
  rewrite Hv. cbn [mbind option_bind].
  by rewrite (skip_ws_not_ws c) by exact Hc.
Qed.

Lemma skip_ws_members (members : list (jsstring * json)) (rest : jsstring) :
  members <> [] ->
  skip_ws (join comma (map member_text members) ++ rest) =
  join comma (map member_text members) ++ rest.
Proof.
  destruct members as [|x [|y members]]; [done|..]; intros _; reflexivity.
Qed.

Lemma parse_members_print (value : jsstring -> option (json * jsstring))
    (members : list (jsstring * json)) (n : nat) (rest : jsstring) :
  members <> [] -> (length members <= n)%nat ->
  Forall (fun kv => parses value (snd kv)) members ->
  parse_members value n (join comma (map member_text members) ++ 0x7D :: rest) =
  Some (members, rest).
Proof.
  revert n. induction members as [|[k v] members IH]; intros n Hne Hn Hall; [done|].
  destruct n as [|n]; [cbn in Hn; lia|].
  apply Forall_cons in Hall. destruct Hall as [Hx Hall]. cbn [snd] in Hx.
  destruct members as [|y members].
  - cbn [map join]. unfold member_text at 1. cbn [fst snd].
    rewrite <- app_assoc, <- app_comm_cons.
    erewrite parse_members_step;
      [|rewrite skip_ws_stringify; apply (Hx (0x7D :: rest)); cbn; auto|reflexivity].
    reflexivity.
  - cbn [map]. rewrite join_two, <- app_assoc, <- app_comm_cons.
    unfold member_text at 1. cbn [fst snd].
    rewrite <- app_assoc, <- app_comm_cons.
    erewrite parse_members_step;
      [|rewrite skip_ws_stringify; apply (Hx (comma :: _)); cbn; auto|reflexivity].
    rewrite N.eqb_refl.
    change (member_text y :: map member_text members)
      with (map member_text (y :: members)).
    rewrite skip_ws_members by done.
    rewrite IH; [reflexivity|done|cbn in *; lia|exact Hall].
Qed.

Lemma parse_value_array (fuel : nat) (c : code_unit) (t : jsstring) :
  value_start c = true ->
  parse_value (S fuel) (0x5B :: c :: t) =
  parse_elements (parse_value fuel) (length (c :: t)) (c :: t)
  ≫= λ '(vs, r), Some (JArray vs, r).
Proof.
  intros H. cbn [parse_value]. rewrite N.eqb_refl.
  rewrite (skip_ws_not_ws c) by (by apply value_start_not_ws).
  by rewrite (proj1 (value_start_not_close c H)).
Qed.

Lemma parse_value_object (fuel : nat) (t : jsstring) :
  parse_value (S fuel) (0x7B :: quotation_mark :: t) =
  parse_members (parse_value fuel) (length (quotation_mark :: t))
    (quotation_mark :: t)
  ≫= λ '(ms, r), Some (JObject ms, r).
Proof. reflexivity. Qed.

Lemma join_length (sep : code_unit) (parts : list jsstring) :
  Forall (fun p => p <> []) parts -> (length parts <= length (join sep parts))%nat.
Proof.
  induction 1 as [|p parts Hp _ IH]; [done|].
  destruct p as [|c p]; [done|]. destruct parts as [|q parts].
  - cbn. lia.
  - rewrite join_two. rewrite length_app. cbn [length] in *. lia.
Qed.

Lemma stringify_nonempty (items : list json) :
  Forall (fun p : jsstring => p <> []) (map stringify items).
Proof.
  apply Forall_map, Forall_forall. intros v _.
  by destruct (stringify_head v) as (c & t & -> & _).
Qed.

Lemma join_stringify_head (items : list json) (rest : jsstring) :
  items <> [] ->
  exists c t, join comma (map stringify items) ++ rest = c :: t
              /\ value_start c = true.
Proof.
  destruct items as [|x [|y items]]; [done|..]; intros _;
    destruct (stringify_head x) as (c & t & Hc & H).
  - cbn [map join]. rewrite Hc. eauto.
  - cbn [map]. rewrite join_two, Hc. eauto.
Qed.

(** The text [stringify] writes for a value parses back to the value. *)
Lemma parse_value_print (v : json) :
  forall fuel rest, (depth v <= fuel)%nat -> closer rest ->
  parse_value fuel (stringify v ++ rest) = Some (v, rest).
Proof.
  induction v as [|b|m e|s|items IH|members IH] using json_ind;
    intros [|fuel] rest Hfuel Hrest; try (cbn in Hfuel; lia).
  - reflexivity.
  - destruct b; reflexivity.
  - destruct (print_number_head m e) as (c & t & Hc & H).
    cbn [stringify]. rewrite Hc, <- app_comm_cons.
    rewrite (parse_value_number _ _ _ H). rewrite app_comm_cons, <- Hc.
    by apply parse_number_print.
  - cbn [stringify]. unfold quote. rewrite <- app_comm_cons, <- app_assoc.
    cbn [parse_value].
    change (quotation_mark =? 91) with false.
    change (quotation_mark =? 123) with false.
    rewrite N.eqb_refl. cbv iota.
    rewrite <- app_comm_cons, app_nil_l, parse_string_quote. reflexivity.
  - cbn [stringify depth] in *. rewrite <- app_comm_cons, <- app_assoc.
    rewrite <- app_comm_cons, app_nil_l.
    destruct (decide (items = [])) as [->|Hne]; [reflexivity|].
    destruct (join_stringify_head items (0x5D :: rest) Hne) as (c & t & Hc & H).
    rewrite Hc, (parse_value_array _ _ _ H), <- Hc.
    rewrite parse_elements_print; [reflexivity|done|..].
    + rewrite length_app. pose proof (join_length comma _ (stringify_nonempty items)).
      rewrite length_map in *. cbn [length]. lia.
    + assert (Hd : Forall (fun k => (k <= fuel)%nat) (map depth items))
        by (apply list_max_le; lia).
      rewrite Forall_map in Hd.
      rewrite Forall_forall in IH, Hd. apply Forall_forall.
      intros x Hx rest' Hrest'. apply IH; auto.
  - cbn [stringify depth] in *. rewrite <- app_comm_cons, <- app_assoc.
    rewrite <- app_comm_cons, app_nil_l.
    destruct (decide (members = [])) as [->|Hne]; [reflexivity|].
    change (map _ members) with (map member_text members).
    assert (Hq : exists t, join comma (map member_text members) ++ 0x7D :: rest
                           = quotation_mark :: t).
    { destruct members as [|kv [|kv' members]]; [done|..]; eexists; reflexivity. }
    destruct Hq as [t Hq].
    rewrite Hq, parse_value_object, <- Hq.
    rewrite parse_members_print; [reflexivity|done|..].
    + rewrite length_app.
      assert (Hl : (length (map member_text members)
                    <= length (join comma (map member_text members)))%nat).
      { apply join_length, Forall_map, Forall_forall. by intros [k v] _. }
      rewrite length_map in Hl. cbn [length]. lia.
    + assert (Hd : Forall (fun k => (k <= fuel)%nat)
                     (map (fun kv => depth (snd kv)) members))
        by (apply list_max_le; lia).
      rewrite Forall_map in Hd.
      rewrite Forall_forall in IH, Hd. apply Forall_forall.
      intros x Hx rest' Hrest'. apply IH; auto.
Qed.

Lemma list_max_le_length (A : Type) (f g : A -> nat) (l : list A) :
  Forall (fun x => (f x <= g x)%nat) l ->
  (list_max (map f l) <= list_sum (map g l))%nat.
Proof. unfold list_max, list_sum. induction 1; cbn [map fold_right] in *; lia. Qed.

Lemma join_length_sum (sep : code_unit) (parts : list jsstring) :
  (list_sum (map length parts) <= length (join sep parts))%nat.
Proof.
  unfold list_sum.
  induction parts as [|p [|q parts] IH]; [done|cbn; lia|].
  rewrite join_two, length_app. cbn [map fold_right length] in *. lia.
Qed.

Lemma depth_le_length (v : json) : (depth v <= length (stringify v))%nat.
Proof.
  induction v as [|b|m e|s|items IH|members IH] using json_ind.
  - cbn. lia.
  - destruct b; cbn; lia.
  - destruct (print_number_head m e) as (c & t & Hc & _).
    cbn [stringify depth]. rewrite Hc. cbn. lia.
  - cbn. lia.
  - cbn [stringify depth length]. rewrite length_app.
    pose proof (list_max_le_length _ _ _ _ IH) as H1.
    pose proof (join_length_sum comma (map stringify items)) as H2.
    rewrite map_map in H2. cbn [length]. lia.
  - cbn [stringify depth length]. rewrite length_app.
    change (map _ members) with (map member_text members) at 2.
    assert (IH' : Forall (fun kv => (depth (snd kv) <= length (member_text kv))%nat)
                    members).
    { eapply Forall_impl; [exact IH|]. intros [k v] H. unfold member_text.
      cbn [fst snd] in *. rewrite length_app. cbn [length]. lia. }
    pose proof (list_max_le_length _ _ _ _ IH') as H1.
    pose proof (join_length_sum comma (map member_text members)) as H2.
    rewrite map_map in H2. cbn [length]. lia.
Qed.

(** [JSON.parse(JSON.stringify(v))] is [v]. *)
Theorem parse_stringify (v : json) : parse (stringify v) = inr v.
Proof.
  unfold parse.
  rewrite <- (app_nil_r (stringify v)) at 2. rewrite skip_ws_stringify.
  rewrite parse_value_print; [reflexivity| |exact I].
  pose proof (depth_le_length v). lia.
Qed.
End JsonFacts.

(** ** JSON text: the bounds of the parser are never what makes it fail *)

Module JsonBounds.
Import Decimal Json JsonText.

Lemma dropWhile_length {A} (f : A -> bool) (l : list A) :
  (length (dropWhile f l) <= length l)%nat.
Proof. induction l as [|x l IH]; cbn; [lia|]. destruct (f x); cbn; lia. Qed.

Lemma skip_ws_length (s : jsstring) : (length (skip_ws s) <= length s)%nat.
Proof. apply dropWhile_length. Qed.

Lemma read_digits_length (s : jsstring) :
  (length (snd (read_digits s)) <= length s)%nat.
Proof.
  induction s as [|c s IH]; cbn; [lia|].
  destruct (digit_of c); [|cbn; lia].
  destruct (read_digits s). cbn in *. lia.
Qed.

Lemma read_digits1_length (s : jsstring) (d : uint) (r : jsstring) :
  read_digits1 s = Some (d, r) -> (length r <= length s)%nat.
Proof.
  unfold read_digits1. pose proof (read_digits_length s) as H.
  destruct (read_digits s) as [[] r']; intros [= <- <-] || intros [=]; exact H.
Qed.

Lemma parse_number_consumes : consumes parse_number.
Proof.
  intros s v r. unfold parse_number.
  assert (Hm : (length (snd (read_minus s)) <= length s)%nat).
  { destruct s as [|c s]; cbn; [lia|]. destruct (c =? 45); cbn; lia. }
  destruct (read_minus s) as [neg s1]. cbn [snd] in Hm.
  destruct (read_int_part s1) as [[int_part s2]|] eqn:Hint; [|done].
  cbn [mbind option_bind].
  assert (Hi : (length s2 < length s1)%nat).
  { destruct s1 as [|c s1']; [done|]. cbn in Hint.
    destruct (c =? 48).
    - injection Hint as <- <-. cbn. lia.
    - pose proof (read_digits1_length _ _ _ Hint) as H.
      unfold read_digits1 in Hint. cbn [read_digits] in Hint.
      destruct (digit_of c) as [k|]; [|done].
      pose proof (read_digits_length s1') as H'.
      destruct (read_digits s1') as [d' r']. cbn in *.
      destruct (k d'); simplify_eq; lia. }
  destruct (read_fraction s2) as [[frac s3]|] eqn:Hfrac; [|done].
  cbn [mbind option_bind].
  assert (Hf : (length s3 <= length s2)%nat).
  { destruct s2 as [|c s2']; cbn in Hfrac; [by injection Hfrac as <- <-|].
    destruct (c =? 46).
    - apply read_digits1_length in Hfrac. cbn. lia.
    - by injection Hfrac as <- <-. }
  destruct (read_exponent s3) as [[exp s4]|] eqn:Hexp; [|done].
  cbn [mbind option_bind]. intros [= <- <-].
  assert (He : (length s4 <= length s3)%nat).
  { destruct s3 as [|c s3']; cbn in Hexp; [by injection Hexp as <- <-|].
    destruct ((c =? 101) || (c =? 69)); [|by injection Hexp as <- <-].
    assert (Hs : (length (snd (read_exponent_sign s3')) <= length s3')%nat).
    { destruct s3' as [|c' t]; cbn; [lia|].
      destruct (c' =? 45); [cbn; lia|]. destruct (c' =? 43); cbn; lia. }
    destruct (read_exponent_sign s3') as [eneg s'']. cbn [snd] in Hs.
    destruct (read_digits1 s'') as [[d r]|] eqn:Hd; [|done].
    apply read_digits1_length in Hd. cbn in Hexp. injection Hexp as <- <-.
    cbn. lia. }
  lia.
Qed.

Lemma parse_string_consumes : consumes parse_string.
Proof.
  assert (H : forall n s str r, (length s <= n)%nat ->
              parse_string s = Some (str, r) -> (length r < length s)%nat).
  { induction n as [|n IH]; intros s str r Hn Hs.
    - destruct s; [done|cbn in Hn; lia].
    - destruct s as [|c s]; [done|]. cbn [parse_string] in Hs.
      destruct (c =? quotation_mark); [injection Hs as <- <-; cbn; lia|].
      destruct (c =? reverse_solidus).
      + destruct s as [|e s]; [done|]. destruct (e =? 117).
        * destruct s as [|h1 [|h2 [|h3 [|h4 s]]]]; try done.
          destruct (hex_value h1), (hex_value h2), (hex_value h3),
            (hex_value h4); try done. cbn [mbind option_bind] in Hs.
          destruct (parse_string s) as [[str' r']|] eqn:Hr; [|done].
          apply IH in Hr; [|cbn in Hn; lia].
          cbn in Hs. injection Hs as <- <-. cbn. lia.
        * destruct (simple_escape e); [|done]. cbn [mbind option_bind] in Hs.
          destruct (parse_string s) as [[str' r']|] eqn:Hr; [|done].
          apply IH in Hr; [|cbn in Hn; lia].
          cbn in Hs. injection Hs as <- <-. cbn. lia.
      + destruct (c <? 32); [done|].
        destruct (parse_string s) as [[str' r']|] eqn:Hr; [|done].
        apply IH in Hr; [|cbn in Hn; lia].
        cbn in Hs. injection Hs as <- <-. cbn. lia. }
  intros s str r. by apply (H (length s)).
Qed.

Lemma expect_length (word s r : jsstring) :
  expect word s = Some r -> (length r <= length s)%nat.
Proof.
  revert s. induction word as [|w word IH]; intros s; cbn.
  - destruct s; intros [= <-]; lia.
  - destruct s as [|c s]; [done|]. destruct (c =? w); [|done].
    intros H. apply IH in H. cbn. lia.
Qed.

Lemma parse_elements_consumes (value : jsstring -> option (json * jsstring))
    (n : nat) :
  consumes value -> consumes (parse_elements value n).
Proof.
  intros Hv. induction n as [|n IH]; intros s vs r; [done|].
  cbn [parse_elements].
  destruct (value s) as [[v s1]|] eqn:H1; [|done]. apply Hv in H1.
  cbn [mbind option_bind]. pose proof (skip_ws_length s1) as Hs1.
  destruct (skip_ws s1) as [|c s2]; [done|]. cbn [length] in Hs1.
  destruct (c =? comma).
  - pose proof (skip_ws_length s2) as Hs2.
    destruct (parse_elements value n (skip_ws s2)) as [[vs' r']|] eqn:H2; [|done].
    apply IH in H2. cbn. intros [= <- <-]. lia.
  - destruct (c =? 93); [|done]. intros [= <- <-]. lia.
Qed.

Lemma parse_members_consumes (value : jsstring -> option (json * jsstring))
    (n : nat) :
  consumes value -> consumes (parse_members value n).
Proof.
  intros Hv. induction n as [|n IH]; intros s ms r; [done|].
  cbn [parse_members]. destruct s as [|q s0]; [done|].
  destruct (q =? quotation_mark); [|done].
  destruct (parse_string s0) as [[k s1]|] eqn:Hk; [|done].
  apply parse_string_consumes in Hk. cbn [mbind option_bind].
  pose proof (skip_ws_length s1) as Hs1.
  destruct (skip_ws s1) as [|c s2]; [done|]. cbn [length] in Hs1.
  destruct (c =? colon); [|done]. pose proof (skip_ws_length s2) as Hs2.
  destruct (value (skip_ws s2)) as [[v s3]|] eqn:H3; [|done]. apply Hv in H3.
  cbn [mbind option_bind]. pose proof (skip_ws_length s3) as Hs3.
  destruct (skip_ws s3) as [|c' s4]; [done|]. cbn [length] in Hs3.
  destruct (c' =? comma).
  - pose proof (skip_ws_length s4) as Hs4.
    destruct (parse_members value n (skip_ws s4)) as [[ms' r']|] eqn:H4; [|done].
    apply IH in H4. cbn. intros [= <- <-]. lia.
  - destruct (c' =? 125); [|done]. intros [= <- <-]. cbn. lia.
Qed.

Lemma parse_value_consumes (fuel : nat) : consumes (parse_value fuel).
Proof.
  induction fuel as [|fuel IH]; intros s v r; [done|].
  cbn [parse_value]. destruct s as [|c s']; [done|].
  pose proof (skip_ws_length s') as Hs.
  destruct (c =? 91).
  { destruct (skip_ws s') as [|c1 s2] eqn:Hskip; [done|].
    destruct (c1 =? 93); [intros [= <- <-]; cbn in *; lia|].
    destruct (parse_elements _ _ _) as [[vs r']|] eqn:He; [|done].
    apply (parse_elements_consumes _ _ IH) in He.
    cbn. intros [= <- <-]. lia. }
  destruct (c =? 123).
  { destruct (skip_ws s') as [|c1 s2] eqn:Hskip; [done|].
    destruct (c1 =? 125); [intros [= <- <-]; cbn in *; lia|].
    destruct (parse_members _ _ _) as [[ms r']|] eqn:He; [|done].
    apply (parse_members_consumes _ _ IH) in He.
    cbn. intros [= <- <-]. lia. }
  destruct (c =? quotation_mark).
  { destruct (parse_string s') as [[str r']|] eqn:Hp; [|done].
    apply parse_string_consumes in Hp. cbn. intros [= <- <-]. lia. }
  destruct (c =? 116).
  { destruct (expect _ s') as [r'|] eqn:He; [|done].
    apply expect_length in He. cbn. intros [= <- <-]. lia. }
  destruct (c =? 102).
  { destruct (expect _ s') as [r'|] eqn:He; [|done].
    apply expect_length in He. cbn. intros [= <- <-]. lia. }
  destruct (c =? 110).
  { destruct (expect _ s') as [r'|] eqn:He; [|done].
    apply expect_length in He. cbn. intros [= <- <-]. lia. }
  apply parse_number_consumes.
Qed.

Lemma consumes_nil {A} (parser : jsstring -> option (A * jsstring)) :
  consumes parser -> parser [] = None.
Proof.
  intros H. destruct (parser []) as [[a r]|] eqn:Hp; [|done].
  apply H in Hp. cbn in Hp. lia.
Qed.

(** The result of [parse_elements] does not depend on its bound once it
    is at least the length of the input, nor on what the parser of values
    does on longer inputs. *)
Lemma parse_elements_bounds (value value' : jsstring -> option (json * jsstring))
    (n : nat) :
  consumes value ->
  forall (n' : nat) (s : jsstring),
  (forall t, (length t <= length s)%nat -> value t = value' t) ->
  (length s <= n)%nat -> (length s <= n')%nat ->
  parse_elements value n s = parse_elements value' n' s.
Proof.
  intros Hc. induction n as [|n IH]; intros n' s Hagree Hn Hn'.
  - destruct s; [|cbn in Hn; lia]. destruct n'; [done|].
    cbn [parse_elements]. by rewrite <- Hagree, (consumes_nil _ Hc).
  - destruct n' as [|n'].
    + destruct s; [|cbn in Hn'; lia]. cbn [parse_elements].
      by rewrite (consumes_nil _ Hc).
    + cbn [parse_elements]. rewrite <- (Hagree s) by done.
      destruct (value s) as [[v s1]|] eqn:H1; [|done]. apply Hc in H1.
      cbn [mbind option_bind]. pose proof (skip_ws_length s1) as Hs1.
      destruct (skip_ws s1) as [|c s2]; [done|]. cbn [length] in Hs1.
      destruct (c =? comma); [|done]. pose proof (skip_ws_length s2) as Hs2.
      rewrite (IH n' (skip_ws s2)); [done|..]; try lia.
      intros t Ht. apply Hagree. lia.
Qed.

Lemma parse_members_bounds (value value' : jsstring -> option (json * jsstring))
    (n : nat) :
  consumes value ->
  forall (n' : nat) (s : jsstring),
  (forall t, (length t <= length s)%nat -> value t = value' t) ->
  (length s <= n)%nat -> (length s <= n')%nat ->
  parse_members value n s = parse_members value' n' s.
Proof.
  intros Hc. induction n as [|n IH]; intros n' s Hagree Hn Hn'.
  - destruct s; [|cbn in Hn; lia]. by destruct n'.
  - destruct n' as [|n']; [destruct s; [done|cbn in Hn'; lia]|].
    cbn [parse_members]. destruct s as [|q s0]; [done|].
    destruct (q =? quotation_mark); [|done].
    destruct (parse_string s0) as [[k s1]|] eqn:Hk; [|done].
    apply parse_string_consumes in Hk. cbn [mbind option_bind].
    pose proof (skip_ws_length s1) as Hs1.
    destruct (skip_ws s1) as [|c s2]; [done|]. cbn [length] in Hs1, Hn, Hn', Hagree.
    destruct (c =? colon); [|done]. pose proof (skip_ws_length s2) as Hs2.
    rewrite <- (Hagree (skip_ws s2)) by lia.
    destruct (value (skip_ws s2)) as [[v s3]|] eqn:H3; [|done]. apply Hc in H3.
    cbn [mbind option_bind]. pose proof (skip_ws_length s3) as Hs3.
    destruct (skip_ws s3) as [|c' s4]; [done|]. cbn [length] in Hs3.
    destruct (c' =? comma); [|done]. pose proof (skip_ws_length s4) as Hs4.
    rewrite (IH n' (skip_ws s4)); [done|..]; try lia.
    intros t Ht. apply Hagree. lia.
Qed.

(** More fuel than the length of the input changes nothing. *)
Lemma parse_value_fuel (fuel : nat) :
  forall (fuel' : nat) (s : jsstring),
  (length s < fuel)%nat -> (length s < fuel')%nat ->
  parse_value fuel s = parse_value fuel' s.
Proof.
  induction fuel as [|fuel IH]; intros fuel' s Hf Hf'; [lia|].
  destruct fuel' as [|fuel']; [lia|].
  cbn [parse_value]. destruct s as [|c s']; [done|]. cbn [length] in Hf, Hf'.
  pose proof (skip_ws_length s') as Hs.
  assert (Hagree : forall t, (length t <= length (skip_ws s'))%nat ->
                     parse_value fuel t = parse_value fuel' t).
  { intros t Ht. apply IH; lia. }
  rewrite (parse_elements_bounds (parse_value fuel) (parse_value fuel')
             (length s') (parse_value_consumes fuel) (length s') (skip_ws s')
             Hagree Hs Hs).
  rewrite (parse_members_bounds (parse_value fuel) (parse_value fuel')
             (length s') (parse_value_consumes fuel) (length s') (skip_ws s')
             Hagree Hs Hs).
  reflexivity.
Qed.

(** [parse] gives what the parser gives with any larger bound on the
    nesting depth: a [SyntaxError] is never the bound running out. *)
Theorem parse_fuel_enough (text : jsstring) (fuel : nat) :
  (length text < fuel)%nat ->
  parse_value fuel (skip_ws text) = parse_value (S (length text)) (skip_ws text).
Proof.
  intros H. pose proof (skip_ws_length text).
  apply parse_value_fuel; lia.
Qed.
End JsonBounds.

(** ** Running commands *)

Lemma run_bind {A B} (m : M A) (k : A -> M B) (p : Page) :
  (m ≫= k) p =
  match m p with
  | (inr a, p') => k a p'
  | (inl e, p') => (inl e, p')
  end.
Proof. reflexivity. Qed.

Lemma getMessagesFromStorage_run (p : Page) :
  getMessagesFromStorage p =
  (match JSON_parse (localStorage p !! "contactMessages"%string) with
   | inl e => inl e
   | inr v => inr (or_else v (JArray []))
   end, p).
Proof.
  unfold getMessagesFromStorage. rewrite run_bind. unfold getItem, gets.
  rewrite run_bind. unfold lift.
  by destruct (JSON_parse _).
Qed.

Lemma saveMessageToStorage_run (message : json) (p : Page) :
  saveMessageToStorage message p =
  match JSON_parse (localStorage p !! "contactMessages"%string) with
  | inl e => (inl e, p)
  | inr v =>
      match or_else v (JArray []) with
      | JArray items =>
          (inr tt,
           set_localStorage
             (insert "contactMessages"%string
                (JSON_stringify (JArray (message :: items)))) p)
      | _ => (inl TypeError, p)
      end
  end.
Proof.
  unfold saveMessageToStorage. rewrite run_bind. unfold getItem, gets.
  rewrite run_bind. unfold lift.
  destruct (JSON_parse _) as [e|v]; [reflexivity|].
  by destruct (or_else v (JArray [])).
Qed.

Lemma JSON_parse_stringify (v : json) :
  JSON_parse (Some (JSON_stringify v)) = inr v.
Proof. apply JsonFacts.parse_stringify. Qed.

Lemma lookup_set_contactMessages (text : jsstring) (p : Page) :
  localStorage (set_localStorage (insert "contactMessages"%string text) p)
    !! "contactMessages"%string = Some text.
Proof. cbn. apply lookup_insert_eq. Qed.

(** The collection [listAll] returns once [items] has been written. *)
Lemma getMessagesFromStorage_written (items : list json) (p : Page) :
  fst (getMessagesFromStorage
         (set_localStorage
            (insert "contactMessages"%string (JSON_stringify (JArray items))) p))
  = inr (JArray items).
Proof.
  rewrite getMessagesFromStorage_run, lookup_set_contactMessages.
  by rewrite JSON_parse_stringify.
Qed.

(** ** What a command leaves as it was *)

Section preserves.
Context {B : Type} (f : Page -> B).

Lemma preserves_ret {A} (a : A) : preserves f (mret a).
Proof. by intros p. Qed.

Lemma preserves_throw {A} (e : exn) : preserves f (throw (A := A) e).
Proof. by intros p. Qed.

Lemma preserves_lift {A} (r : exn + A) : preserves f (lift r).
Proof. by intros p. Qed.

Lemma preserves_gets {A} (g : Page -> A) : preserves f (gets g).
Proof. by intros p. Qed.

Lemma preserves_bind {A C} (m : M A) (k : A -> M C) :
  preserves f m -> (forall a, preserves f (k a)) -> preserves f (m ≫= k).
Proof.
  intros Hm Hk p. rewrite run_bind. specialize (Hm p).
  destruct (m p) as [[e|a] p']; cbn in *; [exact Hm|].
  by rewrite Hk.
Qed.

Lemma preserves_catch {A} (m : M A) (h : exn -> M A) :
  preserves f m -> (forall e, preserves f (h e)) -> preserves f (catch m h).
Proof.
  intros Hm Hh p. unfold catch. specialize (Hm p).
  destruct (m p) as [[e|a] p']; cbn in *; [|exact Hm].
  by rewrite Hh.
Qed.

Lemma preserves_forEach {A} (g : A -> M unit) (l : list A) :
  (forall a, preserves f (g a)) -> preserves f (forEach g l).
Proof.
  intros Hg. induction l as [|a l IH]; cbn [forEach].
  - apply preserves_ret.
  - apply preserves_bind; [apply Hg | intros _; exact IH].
Qed.

Lemma preserves_modify (g : Page -> Page) :
  (forall p, f (g p) = f p) -> preserves f (modify g).
Proof. intros Hg p. apply Hg. Qed.

Lemma preserves_element_get {A} (id : string) (prop : Element -> A) :
  preserves f (element_get id prop).
Proof. intros p. unfold element_get. by destruct (document p !! id). Qed.

Lemma preserves_element_set (id : string) (g : Element -> Element) :
  (forall h p, f (set_document h p) = f p) -> preserves f (element_set id g).
Proof.
  intros Hf p. unfold element_set. destruct (document p !! id); [apply Hf|done].
Qed.

End preserves.

Lemma preserves_validateForm_loop {B} (f : Page -> B) (l : list string) (acc : FormCheck) :
  (forall g a, preserves f (validateForm_field g a)) ->
  preserves f (validateForm_loop l acc).
Proof.
  intros H. revert acc. induction l as [|g l IH]; intros acc; cbn [validateForm_loop].
  - apply preserves_ret.
  - apply preserves_bind; [apply H | intros ?; apply IH].
Qed.

Ltac unfold_script :=
  unfold handle, load, onInput, onBlur, handleSubmit, settle, settled,
    handleSubmit_then, handleSubmit_catch, deleteMessage, clearAllMessages,
    openModal, closeModal, openMessagesModal, closeMessagesModal,
    toggleTheme, onColorSchemeChange, initializeTheme, run_callback,
    renderMessagesList, contactForm_reset, validateForm, validateForm_field,
    saveMessageToStorage, getMessagesFromStorage,
    showFieldError, clearFieldError, getItem, setItem, removeItem,
    errorSpan_set, setTimeout, focus.

Ltac frame_leaf :=
  first
    [ apply preserves_ret | apply preserves_throw | apply preserves_lift
    | apply preserves_gets | apply preserves_element_get
    | apply preserves_element_set; intros; reflexivity
    | apply preserves_modify; intros; reflexivity
    | apply preserves_modify; intros; unfold theme_slot; cbn;
      first [apply lookup_insert_ne | apply lookup_delete_ne]; discriminate ].

Ltac frame :=
  repeat first
    [ frame_leaf
    | apply preserves_bind; [|intros ?]
    | apply preserves_catch; [|intros ?]
    | apply preserves_forEach; intros ?
    | apply preserves_validateForm_loop; intros ? ?
    | match goal with
      | |- preserves _ (if ?b then _ else _) => destruct b
      | |- preserves _ (match ?x with _ => _ end) => destruct x
      end
    | progress cbv zeta
    | progress unfold_script ].

Lemma showFieldError_store (input : string) (message : option jsstring) :
  preserves store_part (showFieldError input message).
Proof. unfold_script; frame. Qed.

Lemma clearFieldError_store (input : string) (showValid : bool) :
  preserves store_part (clearFieldError input showValid).
Proof. unfold_script; frame. Qed.

Lemma store_part_localStorage {A} (m : M A) :
  preserves store_part m -> preserves localStorage m.
Proof. intros H p. specialize (H p). unfold store_part in H. congruence. Qed.

Lemma store_part_pending {A} (m : M A) :
  preserves store_part m -> preserves pending m.
Proof. intros H p. specialize (H p). unfold store_part in H. congruence. Qed.

Lemma getMessagesFromStorage_keeps {B} (f : Page -> B) :
  preserves f getMessagesFromStorage.
Proof. intros p. by rewrite getMessagesFromStorage_run. Qed.

Lemma renderMessagesList_store : preserves store_part renderMessagesList.
Proof.
  unfold renderMessagesList.
  apply preserves_bind; [apply getMessagesFromStorage_keeps|intros messages].
  frame.
Qed.

(** ** The Message Store *)

Lemma getMessagesFromStorage_of_storage (p q : Page) :
  localStorage p = localStorage q ->
  fst (getMessagesFromStorage p) = fst (getMessagesFromStorage q).
Proof. intros H. rewrite !getMessagesFromStorage_run. cbn. by rewrite H. Qed.

Lemma getMessagesFromStorage_array (p : Page) (items : list json) :
  fst (getMessagesFromStorage p) = inr (JArray items) ->
  exists v, JSON_parse (localStorage p !! "contactMessages"%string) = inr v
            /\ or_else v (JArray []) = JArray items.
Proof.
  rewrite getMessagesFromStorage_run. cbn.
  destruct (JSON_parse _) as [e|v]; [discriminate|].
  intros [= H]. eauto.
Qed.

Lemma saveMessageToStorage_array (message : json) (p : Page) (items : list json) :
  fst (getMessagesFromStorage p) = inr (JArray items) ->
  saveMessageToStorage message p =
  (inr tt,
   set_localStorage
     (insert "contactMessages"%string
        (JSON_stringify (JArray (message :: items)))) p).
Proof.
  intros H. apply getMessagesFromStorage_array in H as (v & Hv & Hor).
  by rewrite saveMessageToStorage_run, Hv, Hor.
Qed.

(** C2, as amended.  When the [contactMessages] key is absent, or holds
    the JSON text of a falsy value, [listAll] returns the empty sequence
    and [append] produces a one-element collection; when it holds text
    that is not JSON, both operations throw a [SyntaxError] and leave the
    page as it was. *)
Theorem store_absent_or_unparsable (p : Page) (message : json) :
  (localStorage p !! "contactMessages"%string = None
   \/ (exists v, JSON_parse (localStorage p !! "contactMessages"%string) = inr v
                 /\ truthy v = false) ->
   fst (getMessagesFromStorage p) = inr (JArray [])
   /\ fst (saveMessageToStorage message p) = inr tt
   /\ fst (getMessagesFromStorage (snd (saveMessageToStorage message p)))
      = inr (JArray [message]))
  /\ (JSON_parse (localStorage p !! "contactMessages"%string) = inl SyntaxError ->
      getMessagesFromStorage p = (inl SyntaxError, p)
      /\ saveMessageToStorage message p = (inl SyntaxError, p)).
Proof.
  split.
  - intros H.
    assert (Hv : exists v, JSON_parse (localStorage p !! "contactMessages"%string)
                           = inr v /\ truthy v = false).
    { destruct H as [->|H]; [exists JNull; split; reflexivity | exact H]. }
    destruct Hv as (v & Hv & Hf).
    assert (Hget : fst (getMessagesFromStorage p) = inr (JArray [])).
    { rewrite getMessagesFromStorage_run, Hv. cbn. unfold or_else. by rewrite Hf. }
    split; [exact Hget|].
    rewrite (saveMessageToStorage_array _ _ _ Hget). split; [reflexivity|].
    apply getMessagesFromStorage_written.
  - intros H. by rewrite getMessagesFromStorage_run, saveMessageToStorage_run, H.
Qed.

Lemma store_absent_or_unparsable_witness :
  fst (getMessagesFromStorage example_page) = inr (JArray [])
  /\ getMessagesFromStorage
       (set_localStorage (insert "contactMessages"%string (lit "[1,")) example_page)
     = (inl SyntaxError,
        set_localStorage (insert "contactMessages"%string (lit "[1,")) example_page).
Proof.
  split.
  - apply (proj1 (store_absent_or_unparsable example_page JNull)).
    left. reflexivity.
  - apply (proj2 (store_absent_or_unparsable
                    (set_localStorage (insert "contactMessages"%string (lit "[1,"))
                       example_page) JNull)).
    vm_compute. reflexivity.
Defined.

(** C2, as stated, fails: text that is not JSON makes [listAll] throw. *)
Lemma unparsable_store_throws : ~ unparsable_store_is_empty.
Proof.
  intros H.
  destruct (H (set_localStorage (insert "contactMessages"%string (lit "{bad"))
                 example_page) (lit "{bad") JNull) as [Hget _].
  - reflexivity.
  - vm_compute. reflexivity.
  - rewrite getMessagesFromStorage_run in Hget. vm_compute in Hget. discriminate.
Qed.




Lemma filter_id_filter (messageId : json) (items : list json) :
  Forall (fun msg => msg <> JNull) items ->
  filter_id messageId items =
  inr (List.filter (fun msg => negb (has_id messageId msg)) items).
Proof.
  induction 1 as [|msg items Hmsg _ IH]; [reflexivity|].
  cbn [filter_id List.filter]. rewrite IH. unfold has_id.
  destruct msg as [| | | | |members]; try done.
  cbn [get_id]. by destruct (member _ members).
Qed.

Lemma deleteMessage_storage (messageId : json) (p : Page) (items kept : list json) :
  fst (getMessagesFromStorage p) = inr (JArray items) ->
  filter_id messageId items = inr kept ->
  localStorage (snd (deleteMessage messageId p)) =
  <["contactMessages"%string := JSON_stringify (JArray kept)]> (localStorage p).
Proof.
  intros Hp Hk. unfold deleteMessage.
  rewrite run_bind, getMessagesFromStorage_run.
  rewrite getMessagesFromStorage_run in Hp. cbn in Hp.
  destruct (JSON_parse _) as [e|v]; [discriminate|].
  injection Hp as ->. rewrite run_bind. unfold lift, filter_messages.
  rewrite Hk. rewrite run_bind. unfold setItem, modify.
  by rewrite (store_part_localStorage _ renderMessagesList_store).
Qed.






(** ** Whole-form validation *)

Lemma element_get_run {A} (id : string) (prop : Element -> A) (p : Page) (e : Element) :
  document p !! id = Some e -> element_get id prop p = (inr (prop e), p).
Proof. intros H. unfold element_get. by rewrite H. Qed.

Lemma element_set_run (id : string) (g : Element -> Element) (p : Page) (e : Element) :
  document p !! id = Some e ->
  element_set id g p = (inr tt, set_document (insert id (g e)) p).
Proof. intros H. unfold element_set. by rewrite H. Qed.

Lemma document_set_eq (id : string) (e : Element) (p : Page) :
  document (set_document (insert id e) p) !! id = Some e.
Proof. apply lookup_insert_eq. Qed.

(** The three writes of [showFieldError] and [clearFieldError] to their
    input amount to one. *)
Lemma showFieldError_run (input : string) (message : option jsstring)
    (p : Page) (e : Element) :
  document p !! input = Some e ->
  exists p',
    showFieldError input message p = (inr tt, p')
    /\ document p' =
       <[input := classList_add "shake"
                    (classList_remove "valid" (classList_add "error" e))]>
         (document p)
    /\ errorSpans p' =
       alter (fun span => classList_add "visible"
                            (set_textContent (default [] message) span))
             input (errorSpans p)
    /\ activeElement p' = activeElement p.
Proof.
  intros He. unfold showFieldError.
  rewrite run_bind, (element_set_run _ _ _ _ He).
  rewrite run_bind, (element_set_run _ _ _ _ (document_set_eq _ _ _)).
  rewrite run_bind. unfold errorSpan_set at 1, modify at 1.
  rewrite run_bind. erewrite element_set_run by apply document_set_eq.
  unfold setTimeout, modify. eexists. split; [reflexivity|].
  cbn. by rewrite !insert_insert_eq.
Qed.

Lemma clearFieldError_run (input : string) (p : Page) (e : Element) :
  document p !! input = Some e ->
  exists p',
    clearFieldError input true p = (inr tt, p')
    /\ document p' =
       <[input := classList_add "valid" (classList_remove "error" e)]> (document p)
    /\ errorSpans p' = alter (classList_remove "visible") input (errorSpans p)
    /\ activeElement p' = activeElement p.
Proof.
  intros He. unfold clearFieldError.
  rewrite run_bind, (element_set_run _ _ _ _ He).
  rewrite run_bind, (element_set_run _ _ _ _ (document_set_eq _ _ _)).
  rewrite run_bind. unfold errorSpan_set at 1, modify at 1.
  rewrite run_bind. unfold gets at 1.
  match goal with |- context [errorSpans ?q !! input] =>
    destruct (errorSpans q !! input) end;
    (eexists; split; [reflexivity|]; cbn; by rewrite !insert_insert_eq).
Qed.

Lemma field_value_lookup (p : Page) (f : string) (e : Element) :
  document p !! f = Some e -> field_value p f = value e.
Proof. intros H. unfold field_value. by rewrite H. Qed.

(** One round of the loop of [validateForm]. *)
Lemma validateForm_field_run (f : string) (acc : FormCheck) (p : Page) (e : Element) :
  document p !! f = Some e ->
  exists p' e',
    validateForm_field f acc p =
      (inr (if field_valid p f then acc
            else {| isFormValid := false;
                    firstInvalidField :=
                      match firstInvalidField acc with
                      | None => Some f
                      | Some g => Some g
                      end |}), p')
    /\ document p' = <[f := e']> (document p)
    /\ value e' = value e
    /\ shows_result p' f (validateField f (value e))
    /\ (forall g, g <> f -> errorSpans p' !! g = errorSpans p !! g)
    /\ activeElement p' = activeElement p.
Proof.
  intros He. unfold validateForm_field, field_valid.
  rewrite run_bind, (element_get_run _ _ _ _ He), (field_value_lookup _ _ _ He).
  destruct (isValid (validateField f (value e))) eqn:Hv; cbn [negb].
  - destruct (clearFieldError_run f p e He) as (p' & Hrun & Hdoc & Hspans & Hact).
    rewrite run_bind, Hrun.
    eexists p', _. split; [reflexivity|]. split; [exact Hdoc|].
    split; [reflexivity|]. split; [|split; [|exact Hact]].
    + eexists. rewrite Hdoc, lookup_insert_eq. split; [reflexivity|].
      rewrite Hv. cbn. split; [set_solver|]. split; [set_solver|].
      intros span. rewrite Hspans, lookup_alter_eq.
      destruct (errorSpans p !! f); [|done]. intros [= <-]. cbn. set_solver.
    + intros g Hg. by rewrite Hspans, lookup_alter_ne.
  - destruct (showFieldError_run f (errorMessage (validateField f (value e))) p e He)
      as (p' & Hrun & Hdoc & Hspans & Hact).
    rewrite run_bind, Hrun.
    eexists p', _. split; [reflexivity|]. split; [exact Hdoc|].
    split; [reflexivity|]. split; [|split; [|exact Hact]].
    + eexists. rewrite Hdoc, lookup_insert_eq. split; [reflexivity|].
      rewrite Hv. cbn. split; [set_solver|]. split; [set_solver|].
      intros span. rewrite Hspans, lookup_alter_eq.
      destruct (errorSpans p !! f); [|done]. intros [= <-]. cbn.
      split; [set_solver|reflexivity].
    + intros g Hg. by rewrite Hspans, lookup_alter_ne.
Qed.

Lemma field_valid_of_value (p q : Page) (f : string) :
  value <$> document q !! f = value <$> document p !! f ->
  field_valid q f = field_valid p f.
Proof. intros H. unfold field_valid, field_value. by rewrite H. Qed.

Lemma shows_result_of (p q : Page) (f : string) (result : ValidationResult) :
  document q !! f = document p !! f -> errorSpans q !! f = errorSpans p !! f ->
  shows_result p f result -> shows_result q f result.
Proof. intros Hd Hs (e & He & H). exists e. rewrite Hd, Hs. by split. Qed.

(** The loop of [validateForm] over distinct fields that are all on the
    page. *)
Lemma validateForm_loop_run (l : list string) :
  NoDup l ->
  forall (acc : FormCheck) (p : Page),
  (forall f, f ∈ l -> is_Some (document p !! f)) ->
  exists p',
    validateForm_loop l acc p =
      (inr {| isFormValid := isFormValid acc && forallb (field_valid p) l;
              firstInvalidField :=
                match firstInvalidField acc with
                | Some g => Some g
                | None => List.find (fun f => negb (field_valid p f)) l
                end |}, p')
    /\ (forall f, f ∈ l ->
          shows_result p' f (validateField f (field_value p f)))
    /\ (forall g, g ∉ l -> document p' !! g = document p !! g)
    /\ (forall g, value <$> document p' !! g = value <$> document p !! g)
    /\ (forall g, g ∉ l -> errorSpans p' !! g = errorSpans p !! g)
    /\ activeElement p' = activeElement p.
Proof.
  induction 1 as [|f l Hf Hl IH]; intros acc p Hall.
  - exists p. split; [|split; [|done]].
    + cbn [validateForm_loop forallb List.find]. rewrite andb_true_r.
      by destruct acc as [b [g|]].
    + intros f Hf. by apply elem_of_nil in Hf.
  - destruct (Hall f) as [e He]; [by left|].
    destruct (validateForm_field_run f acc p e He)
      as (p1 & e' & Hrun & Hdoc & Hval & Hshow & Hspans & Hact).
    assert (Hvalues : forall g, value <$> document p1 !! g = value <$> document p !! g).
    { intros g. rewrite Hdoc. destruct (decide (g = f)) as [->|Hg].
      - rewrite lookup_insert_eq, He. cbn. by rewrite Hval.
      - by rewrite lookup_insert_ne. }
    destruct (IH (if field_valid p f then acc
                  else {| isFormValid := false;
                          firstInvalidField :=
                            match firstInvalidField acc with
                            | None => Some f
                            | Some g => Some g
                            end |}) p1)
      as (p' & Hloop & Hshows & Hdocs & Hvals & Hsp & Hact').
    { intros g Hg. rewrite Hdoc, lookup_insert_ne; [apply Hall; by right|].
      intros ->. done. }
    exists p'. cbn [validateForm_loop]. rewrite run_bind, Hrun, Hloop.
    split; [|split; [|split; [|split; [|split]]]].
    + f_equal. f_equal. cbn [forallb List.find].
      assert (Hfa : forallb (field_valid p1) l = forallb (field_valid p) l).
      { clear -Hvalues. induction l as [|g l IHl]; [done|]. cbn [forallb].
        by rewrite IHl, (field_valid_of_value p p1 g (Hvalues g)). }
      assert (Hfi : List.find (fun g => negb (field_valid p1 g)) l
                    = List.find (fun g => negb (field_valid p g)) l).
      { clear -Hvalues. induction l as [|g l IHl]; [done|]. cbn [List.find].
        by rewrite IHl, (field_valid_of_value p p1 g (Hvalues g)). }
      rewrite Hfa, Hfi.
      destruct (field_valid p f), acc as [b [g|]]; cbn;
        rewrite ?andb_false_r; reflexivity.
    + intros g Hg. apply elem_of_cons in Hg as [->|Hg].
      * rewrite (field_value_lookup _ _ _ He).
        apply (shows_result_of p1); [by apply Hdocs|by apply Hsp|exact Hshow].
      * assert (field_value p1 g = field_value p g) as <-
          by (unfold field_value; by rewrite Hvalues).
        by apply Hshows.
    + intros g Hg. rewrite Hdocs by set_solver. rewrite Hdoc.
      apply lookup_insert_ne. set_solver.
    + intros g. by rewrite Hvals.
    + intros g Hg. rewrite Hsp by set_solver. apply Hspans. set_solver.
    + by rewrite Hact'.
Qed.

(** C6. When the four fields are on the page, [validateForm] validates
    each of them with [validateField], returns true exactly when none of
    them fails, gives the focus to the first field that fails, in the
    order of [fields], and shows for every field what validation said of
    it: the error class and the message for each one that fails, not
    only the first. *)
Theorem validateForm_checks_every_field (p : Page) :
  (forall f, f ∈ fields -> is_Some (document p !! f)) ->
  exists (valid : bool) (p' : Page),
    validateForm p = (inr valid, p')
    /\ (valid = true <-> forall f, f ∈ fields -> field_valid p f = true)
    /\ activeElement p' =
       match List.find (fun f => negb (field_valid p f)) fields with
       | Some f => Some f
       | None => activeElement p
       end
    /\ (forall f, f ∈ fields ->
          shows_result p' f (validateField f (field_value p f))).
Proof.
  intros Hall.
  destruct (validateForm_loop_run fields ltac:(by apply (bool_decide_unpack _))
              {| isFormValid := true; firstInvalidField := None |} p Hall)
    as (p1 & Hloop & Hshows & Hdocs & _ & Hsp & Hact).
  unfold validateForm. rewrite run_bind, Hloop. cbn [firstInvalidField isFormValid andb].
  assert (Hiff : forallb (field_valid p) fields = true <->
                 forall f, f ∈ fields -> field_valid p f = true).
  { rewrite forallb_forall. by setoid_rewrite list_elem_of_In. }
  destruct (List.find (fun f => negb (field_valid p f)) fields) as [f|] eqn:Hfind.
  - eexists _, _. rewrite run_bind. unfold focus, modify. split; [reflexivity|].
    split; [exact Hiff|]. split; [reflexivity|].
    intros g Hg. apply (shows_result_of p1); [reflexivity..|by apply Hshows].
  - eexists _, _. rewrite run_bind. split; [reflexivity|].
    split; [exact Hiff|]. split; [exact Hact|]. exact Hshows.
Qed.

Lemma validateForm_checks_every_field_witness :
  exists (valid : bool) (p' : Page),
    validateForm (page_with_values (lit "Jo") (lit "nobody") (lit "Hi there")
                    (lit "short")) = (inr valid, p')
    /\ valid = false
    /\ activeElement p' = Some "senderEmail"%string
    /\ shows_result p' "message"
         (invalid_result (Some (lit "Message must be at least 10 characters"))).
Proof.
  destruct (validateForm_checks_every_field
              (page_with_values (lit "Jo") (lit "nobody") (lit "Hi there")
                 (lit "short")))
    as (valid & p' & Hrun & Hvalid & Hfocus & Hshows).
  - intros f Hf. unfold fields in Hf.
    repeat (apply elem_of_cons in Hf as [->|Hf]); try (by eexists);
      by apply elem_of_nil in Hf.
  - exists valid, p'. split; [exact Hrun|]. split; [|split].
    + destruct valid; [|reflexivity].
      specialize (proj1 Hvalid eq_refl "message"%string ltac:(set_solver)).
      vm_compute. done.
    + exact Hfocus.
    + apply (Hshows "message"%string). set_solver.
Defined.

(** ** The submission flow *)

Lemma validateForm_store : preserves store_part validateForm.
Proof. unfold_script; frame. Qed.

(** [validateForm] on a page that has the four fields. *)
Lemma validateForm_run (p : Page) :
  (forall f, f ∈ fields -> is_Some (document p !! f)) ->
  exists p',
    validateForm p = (inr (forallb (field_valid p) fields), p')
    /\ activeElement p' =
       match List.find (fun f => negb (field_valid p f)) fields with
       | Some f => Some f
       | None => activeElement p
       end
    /\ (forall f, f ∈ fields ->
          shows_result p' f (validateField f (field_value p f)))
    /\ (forall g, g ∉ fields -> document p' !! g = document p !! g)
    /\ (forall g, field_value p' g = field_value p g)
    /\ store_part p' = store_part p.
Proof.
  intros Hall.
  destruct (validateForm_loop_run fields ltac:(by apply (bool_decide_unpack _))
              {| isFormValid := true; firstInvalidField := None |} p Hall)
    as (p1 & Hloop & Hshows & Hdocs & Hvals & Hsp & Hact).
  pose proof (validateForm_store p) as Hstore.
  unfold validateForm in *. rewrite run_bind, Hloop in *.
  cbn [firstInvalidField isFormValid andb] in *.
  assert (Hfv : forall g, field_value p1 g = field_value p g)
    by (intros g; unfold field_value; by rewrite Hvals).
  destruct (List.find (fun f => negb (field_valid p f)) fields) as [f|] eqn:Hfind.
  - eexists. rewrite run_bind in *. unfold focus, modify in *.
    split; [reflexivity|]. split; [reflexivity|]. split; [|done].
    intros g Hg. apply (shows_result_of p1); [reflexivity..|by apply Hshows].
  - eexists. rewrite run_bind in *. split; [reflexivity|]. done.
Qed.

Lemma field_value_set_other (id f : string) (e : Element) (p : Page) :
  id <> f -> field_value (set_document (insert id e) p) f = field_value p f.
Proof. intros H. unfold field_value. cbn. by rewrite lookup_insert_ne. Qed.

Lemma forallb_fields_true (valid : string -> bool) :
  (forall f, f ∈ fields -> valid f = true) -> forallb valid fields = true.
Proof.
  intros H. apply forallb_forall. intros f Hf. apply H. by apply list_elem_of_In.
Qed.

(** [handleSubmit] on a page that has the elements of the form and
    whose four fields are valid: the send attempt is pending with the
    record built from the trimmed values, the button is disabled, the
    store is untouched. *)
Lemma handleSubmit_sends (now : Z) (date : jsstring) (p : Page) (fs sb : Element) :
  (forall f, f ∈ fields -> is_Some (document p !! f)) ->
  document p !! "formStatus"%string = Some fs ->
  document p !! "submitBtn"%string = Some sb ->
  (forall f, f ∈ fields -> field_valid p f = true) ->
  exists p1,
    handleSubmit now date p = (inr tt, p1)
    /\ pending p1 =
       pending p ++
       [formData now (field_value p "senderName") (field_value p "senderEmail")
          (field_value p "subject") (field_value p "message") date]
    /\ localStorage p1 = localStorage p
    /\ document p1 !! "formStatus"%string =
       Some (set_textContent [] (set_className ["form-status"%string] fs))
    /\ document p1 !! "submitBtn"%string =
       Some (set_textContent (lit "Sending...") (set_disabled true sb)).
Proof.
  intros Hall Hfs Hsb Hvalid. unfold handleSubmit.
  rewrite run_bind, (element_set_run _ _ _ _ Hfs).
  rewrite run_bind, (element_set_run _ _ _ _ (document_set_eq _ _ _)).
  set (pb := set_document _ (set_document _ p)).
  assert (Hpb : forall g, g <> "formStatus"%string -> document pb !! g = document p !! g).
  { intros g Hg. subst pb. cbn. by rewrite !lookup_insert_ne. }
  assert (Hin : forall f, f ∈ fields -> f <> "formStatus"%string /\ f <> "submitBtn"%string).
  { intros f Hf. unfold fields in Hf.
    repeat (apply elem_of_cons in Hf as [->|Hf]); try done. by apply elem_of_nil in Hf. }
  assert (Hvb : forall g, g ∈ fields -> field_value pb g = field_value p g).
  { intros g Hg. unfold field_value. rewrite Hpb; [done|]. by apply Hin. }
  destruct (validateForm_run pb) as (pc & Hrun & _ & _ & Hdocs & Hvals & Hstore).
  { intros f Hf. rewrite Hpb; [by apply Hall|]. by apply Hin. }
  rewrite run_bind, Hrun.
  rewrite forallb_fields_true; cycle 1.
  { intros f Hf. unfold field_valid. rewrite Hvb by done. by apply Hvalid. }
  cbn [negb].
  assert (Hget : forall f, f ∈ fields ->
            element_get f value pc = (inr (field_value p f), pc)).
  { intros f Hf. rewrite <- Hvb, <- Hvals by done.
    destruct (Hall f Hf) as [e He].
    assert (Hc : is_Some (document pc !! f)).
    { destruct (validateForm_run pb) as (pc' & Hrun' & _ & Hsh & _).
      { intros f' Hf'. rewrite Hpb; [by apply Hall|]. by apply Hin. }
      rewrite Hrun in Hrun'. injection Hrun' as <-.
      destruct (Hsh f Hf) as (e' & He' & _). by eexists. }
    destruct Hc as [e' He']. rewrite (element_get_run _ _ _ _ He').
    by rewrite (field_value_lookup _ _ _ He'). }
  rewrite run_bind, (Hget "senderName"%string) by set_solver.
  rewrite run_bind, (Hget "senderEmail"%string) by set_solver.
  rewrite run_bind, (Hget "subject"%string) by set_solver.
  rewrite run_bind, (Hget "message"%string) by set_solver.
  assert (Hsbc : document pc !! "submitBtn"%string = Some sb).
  { rewrite Hdocs, Hpb by (try done; set_solver). exact Hsb. }
  assert (Hfsc : document pc !! "formStatus"%string =
                 Some (set_textContent [] (set_className ["form-status"%string] fs))).
  { rewrite Hdocs by set_solver. subst pb. apply document_set_eq. }
  rewrite run_bind, (element_set_run _ _ _ _ Hsbc).
  rewrite run_bind, (element_set_run _ _ _ _ (document_set_eq _ _ _)).
  unfold modify. eexists. split; [reflexivity|].
  unfold store_part in Hstore. injection Hstore as Hls Hpend.
  cbn. rewrite Hls, Hpend. split; [reflexivity|]. split; [reflexivity|].
  rewrite !lookup_insert_ne by done. split; [exact Hfsc|].
  by rewrite lookup_insert_eq.
Qed.

Lemma handleSubmit_catch_run (p : Page) (fs sb : Element) :
  document p !! "formStatus"%string = Some fs ->
  document p !! "submitBtn"%string = Some sb ->
  exists p',
    handleSubmit_catch p = (inr tt, p')
    /\ store_part p' = store_part p
    /\ document p' !! "formStatus"%string =
       Some (set_textContent
               (lit "Failed to send message. Please try again or email me directly.")
               (set_className ["form-status"; "error"]%string fs))
    /\ document p' !! "submitBtn"%string =
       Some (set_disabled false (set_textContent (lit "Send Message") sb))
    /\ (forall g, g <> "formStatus"%string -> g <> "submitBtn"%string ->
          document p' !! g = document p !! g).
Proof.
  intros Hfs Hsb. unfold handleSubmit_catch.
  rewrite run_bind, (element_set_run _ _ _ _ Hfs).
  rewrite run_bind, (element_set_run _ _ _ _ (document_set_eq _ _ _)).
  rewrite run_bind. erewrite element_set_run; cycle 1.
  { cbn. rewrite !lookup_insert_ne by done. exact Hsb. }
  erewrite element_set_run by apply document_set_eq.
  eexists. split; [reflexivity|]. split; [reflexivity|]. cbn.
  split; [by rewrite !lookup_insert_ne, lookup_insert_eq by done|].
  split; [by rewrite lookup_insert_eq|].
  intros g H1 H2. by rewrite !lookup_insert_ne.
Qed.

Lemma settle_run (i : nat) (outcome : SendOutcome) (p : Page) (data : json) :
  pending p !! i = Some data ->
  settle i outcome p = settled outcome data (set_pending (delete i) p).
Proof. intros H. unfold settle. rewrite run_bind. unfold gets. by rewrite H. Qed.

Lemma closeModal_clears_status (p q : Page) :
  closeModal p = (inr tt, q) ->
  exists fs, document q !! "formStatus"%string = Some fs
             /\ classList fs = {["form-status"%string]}
             /\ textContent fs = [].
Proof.
  unfold closeModal. rewrite run_bind.
  destruct (element_set "contactModal" _ p) as [[e|[]] p1]; [discriminate|].
  rewrite run_bind. unfold modify at 1. rewrite run_bind.
  destruct (contactForm_reset _) as [[e|[]] p2]; [discriminate|].
  rewrite run_bind. unfold element_set at 1.
  destruct (document p2 !! "formStatus"%string) as [fs|]; [|discriminate].
  erewrite element_set_run by apply document_set_eq.
  intros [= <-]. eexists. split; [apply document_set_eq|]. cbn. split; [|done].
  set_solver.
Qed.

(** C5. On a page that has the elements of the form and whose four
    fields are valid, [handleSubmit] starts a send attempt; when that
    attempt is rejected the record is not stored and [localStorage] is as
    it was before the submission, the status shows the error message, which
    goes when the modal is closed, and the submit button is enabled
    again. *)
Theorem rejected_send_is_not_stored (now : Z) (date : jsstring) (p : Page)
    (fs sb : Element) :
  (forall f, f ∈ fields -> is_Some (document p !! f)) ->
  document p !! "formStatus"%string = Some fs ->
  document p !! "submitBtn"%string = Some sb ->
  (forall f, f ∈ fields -> field_valid p f = true) ->
  exists p1 p2 fs' sb',
    handleSubmit now date p = (inr tt, p1)
    /\ pending p1 =
       pending p ++
       [formData now (field_value p "senderName") (field_value p "senderEmail")
          (field_value p "subject") (field_value p "message") date]
    /\ settle (length (pending p)) Rejected p1 = (inr tt, p2)
    /\ localStorage p2 = localStorage p
    /\ fst (getMessagesFromStorage p2) = fst (getMessagesFromStorage p)
    /\ pending p2 = pending p
    /\ document p2 !! "formStatus"%string = Some fs'
    /\ classList fs' = {["form-status"; "error"]}%string
    /\ textContent fs' =
       lit "Failed to send message. Please try again or email me directly."
    /\ document p2 !! "submitBtn"%string = Some sb'
    /\ disabled sb' = false
    /\ textContent sb' = lit "Send Message"
    /\ (forall q, closeModal p2 = (inr tt, q) ->
          exists fs'', document q !! "formStatus"%string = Some fs''
                       /\ classList fs'' = {["form-status"%string]}
                       /\ textContent fs'' = []).
Proof.
  intros Hall Hfs Hsb Hvalid.
  destruct (handleSubmit_sends now date p fs sb Hall Hfs Hsb Hvalid)
    as (p1 & Hrun & Hpend & Hls & Hfs1 & Hsb1).
  assert (Hi : pending p1 !! length (pending p) = Some
            (formData now (field_value p "senderName") (field_value p "senderEmail")
               (field_value p "subject") (field_value p "message") date)).
  { rewrite Hpend. by apply list_lookup_middle. }
  destruct (handleSubmit_catch_run (set_pending (delete (length (pending p))) p1)
              _ _ Hfs1 Hsb1) as (p2 & Hcatch & Hstore & Hfs2 & Hsb2 & _).
  unfold store_part in Hstore. injection Hstore as Hls2 Hpend2. cbn in Hls2, Hpend2.
  eexists p1, p2, _, _. split; [exact Hrun|]. split; [exact Hpend|].
  split; [by rewrite (settle_run _ _ _ _ Hi)|].
  split; [congruence|].
  split; [apply getMessagesFromStorage_of_storage; congruence|].
  split.
  { by rewrite Hpend2, Hpend, delete_middle, app_nil_r. }
  split; [exact Hfs2|]. split; [cbn; set_solver|]. split; [reflexivity|].
  split; [exact Hsb2|]. split; [reflexivity|]. split; [reflexivity|].
  apply closeModal_clears_status.
Qed.

Lemma rejected_send_is_not_stored_witness :
  exists p1 p2,
    handleSubmit 1769701500000 (lit "2026-01-29T15:45:00.000Z")
      (page_with_values (lit "Jo") (lit "jo@x.com") (lit "Hi there")
         (lit "This is a sufficiently long message.")) = (inr tt, p1)
    /\ settle 0 Rejected p1 = (inr tt, p2)
    /\ localStorage p2 = ∅
    /\ disabled <$> document p2 !! "submitBtn"%string = Some false.
Proof.
  destruct (rejected_send_is_not_stored 1769701500000 (lit "2026-01-29T15:45:00.000Z")
              (page_with_values (lit "Jo") (lit "jo@x.com") (lit "Hi there")
                 (lit "This is a sufficiently long message.")) blank blank)
    as (p1 & p2 & fs' & sb' & H1 & _ & H2 & H3 & _ & _ & _ & _ & _ & H4 & H5 & _).
  - intros f Hf. unfold fields in Hf.
    repeat (apply elem_of_cons in Hf as [->|Hf]); try (by eexists);
      by apply elem_of_nil in Hf.
  - reflexivity.
  - reflexivity.
  - intros f Hf. unfold fields in Hf.
    repeat (apply elem_of_cons in Hf as [->|Hf]); try (vm_compute; reflexivity);
      by apply elem_of_nil in Hf.
  - exists p1, p2. split; [exact H1|]. split; [exact H2|]. split; [exact H3|].
    by rewrite H4, <- H5.
Defined.

(** ** The theme preference *)

Lemma store_part_theme {A} (m : M A) :
  preserves store_part m -> preserves theme_slot m.
Proof.
  intros H p. unfold theme_slot. by rewrite (store_part_localStorage m H p).
Qed.

(** Only [toggleTheme] writes under [theme]. *)
Lemma handle_keeps_theme (ev : Event) :
  ev <> ThemeToggled -> preserves theme_slot (handle ev).
Proof.
  intros Hev. destruct ev; try done; unfold_script; frame.
Qed.

Lemma toggleTheme_writes (p : Page) :
  theme_slot (snd (toggleTheme p)) =
  Some (if classList_contains "dark-mode" (body (snd (toggleTheme p)))
        then lit "dark" else lit "light").
Proof.
  unfold toggleTheme, theme_slot. rewrite !run_bind.
  cbv [modify gets setItem].
  cbn [snd fst localStorage set_localStorage set_body body].
  apply lookup_insert_eq.
Qed.

Lemma step_theme_literal (p : Page) (ev : Event) :
  theme_literal (theme_slot p) -> theme_literal (theme_slot (step p ev)).
Proof.
  intros Hp. unfold step.
  assert (Hev : ev = ThemeToggled \/ ev <> ThemeToggled)
    by (destruct ev; auto).
  destruct Hev as [->|Hev].
  - cbn [handle]. rewrite toggleTheme_writes. unfold theme_literal.
    destruct (classList_contains _ _); auto.
  - by rewrite (handle_keeps_theme ev Hev p).
Qed.

Lemma run_theme_literal (evs : list Event) (p : Page) :
  theme_literal (theme_slot p) -> theme_literal (theme_slot (run p evs)).
Proof.
  revert p. induction evs as [|ev evs IH]; intros p Hp; [exact Hp|].
  cbn [run foldl]. apply IH, step_theme_literal, Hp.
Qed.

(** C9. Starting from a page where the [theme] key is absent or holds
    ["dark"] or ["light"], it is so after every run of events: the theme
    toggle writes the one of the two literals that says whether the body
    now has the dark mode class, and nothing else writes under that key.
    While the key is absent, [initializeTheme] and the listener for
    changes of the colour scheme follow the preference of the operating
    system. *)
Theorem theme_slot_is_dark_or_light (p : Page) (evs : list Event)
    (prefersDark matches : bool) :
  theme_literal (theme_slot p) ->
  theme_literal (theme_slot (run p evs))
  /\ (forall q,
        theme_slot (snd (toggleTheme q)) =
        Some (if classList_contains "dark-mode" (body (snd (toggleTheme q)))
              then lit "dark" else lit "light"))
  /\ (forall q ev, ev <> ThemeToggled -> theme_slot (step q ev) = theme_slot q)
  /\ (forall q, theme_slot q = None ->
        body (snd (initializeTheme prefersDark q)) =
          (if prefersDark then classList_add "dark-mode" (body q) else body q)
        /\ body (snd (onColorSchemeChange matches q)) =
          (if matches then classList_add "dark-mode" (body q)
           else classList_remove "dark-mode" (body q))).
Proof.
  intros Hp. split; [by apply run_theme_literal|].
  split; [apply toggleTheme_writes|].
  split; [intros q ev Hev; apply (handle_keeps_theme ev Hev q)|].
  intros q Hq. unfold theme_slot in Hq.
  unfold initializeTheme, onColorSchemeChange, getItem, gets.
  rewrite !run_bind, Hq. cbn [falsy_string andb orb].
  rewrite bool_decide_eq_false_2 by discriminate. cbn [orb].
  by destruct prefersDark, matches.
Qed.

Lemma theme_slot_is_dark_or_light_witness :
  theme_literal
    (theme_slot
       (run example_page
          [ThemeToggled; DeleteClicked (JNumber 1 0); ThemeToggled; ThemeToggled]))
  /\ theme_slot (snd (toggleTheme example_page)) = Some (lit "dark").
Proof.
  destruct (theme_slot_is_dark_or_light example_page
              [ThemeToggled; DeleteClicked (JNumber 1 0); ThemeToggled; ThemeToggled]
              true true) as (H1 & H2 & _).
  - left. reflexivity.
  - split; [exact H1|]. rewrite H2. vm_compute. reflexivity.
Defined.

Example theme_after_three_toggles :
  theme_slot
    (run example_page
       [ThemeToggled; DeleteClicked (JNumber 1 0); ThemeToggled; ThemeToggled])
  = Some (lit "dark").
Proof. vm_compute. reflexivity. Qed.

(** ** Ids of the stored records *)

Lemma record_id_formData (now : Z) (name email subject message date : jsstring) :
  record_id (formData now name email subject message date) = Some now.
Proof. reflexivity. Qed.

Lemma number_eqb_integers (k n : Z) : number_eqb k 0 n 0 = (k =? n)%Z.
Proof.
  unfold number_eqb. cbn. rewrite !Z.mul_1_r. reflexivity.
Qed.

Lemma has_id_record (r : json) (n : Z) :
  is_record r ->
  has_id (JNumber n 0) r = bool_decide (record_id r = Some n).
Proof.
  intros (now & name & email & subject & message & date & ->).
  rewrite record_id_formData. unfold has_id.
  change (get_id (formData now name email subject message date))
    with (inr (B := option json) (A := exn) (Some (JNumber now 0))).
  cbn [strict_eqb]. rewrite number_eqb_integers.
  destruct (Z.eqb_spec now n) as [->|Hne].
  - by rewrite bool_decide_eq_true_2.
  - rewrite bool_decide_eq_false_2; [done|]. congruence.
Qed.

Lemma is_record_not_null (r : json) : is_record r -> r <> JNull.
Proof. by intros (now & name & email & subject & message & date & ->). Qed.

Lemma slot_holds_listAll (p : Page) (stored : list json) :
  slot_holds p stored ->
  fst (getMessagesFromStorage p) = inr (JArray stored).
Proof.
  intros [[H ->]|H]; rewrite getMessagesFromStorage_run, H; cbn [fst].
  - reflexivity.
  - by rewrite JSON_parse_stringify.
Qed.

Lemma omap_submseteq {A B} (f : A -> option B) (l k : list A) :
  l ⊆+ k -> omap f l ⊆+ omap f k.
Proof.
  induction 1 as [|x l k _ IH|x y l|x l k _ IH|l k m _ IH1 _ IH2]; cbn.
  - constructor.
  - destruct (f x); [by constructor|done].
  - destruct (f x), (f y); try done. constructor.
  - destruct (f x); [by constructor|done].
  - by etrans.
Qed.

Lemma submseteq_NoDup {A} (l k : list A) : l ⊆+ k -> NoDup k -> NoDup l.
Proof.
  intros Hsub Hk. apply submseteq_Permutation in Hsub as [m Hm].
  rewrite Hm in Hk. by apply NoDup_app in Hk as [? _].
Qed.

(** The invariant goes over to a page whose stored and pending records
    are among those of [p]. *)
Lemma store_inv_sub (seen : list Z) (p q : Page) :
  store_inv seen p ->
  (forall stored, slot_holds p stored ->
     exists stored', slot_holds q stored'
                     /\ stored' ++ pending q ⊆+ stored ++ pending p) ->
  store_inv seen q.
Proof.
  intros (stored & Hslot & Hrec & Hnd & Hseen) H.
  destruct (H stored Hslot) as (stored' & Hslot' & Hsub).
  exists stored'. split; [exact Hslot'|]. split; [|split].
  - rewrite Forall_forall in Hrec |- *. intros r Hr.
    apply Hrec. by eapply elem_of_submseteq.
  - eapply submseteq_NoDup; [|exact Hnd]. by apply omap_submseteq.
  - intros n Hn. apply Hseen. eapply elem_of_submseteq; [exact Hn|].
    by apply omap_submseteq.
Qed.

Lemma store_inv_same (seen : list Z) (p q : Page) :
  store_part q = store_part p -> store_inv seen p -> store_inv seen q.
Proof.
  intros Hq Hp. unfold store_part in Hq. injection Hq as Hls Hpend.
  apply (store_inv_sub seen p q Hp). intros stored Hslot.
  exists stored. unfold slot_holds in *. rewrite Hls, Hpend. by split.
Qed.

Lemma store_inv_seen (seen seen' : list Z) (p : Page) :
  (forall n, n ∈ seen -> n ∈ seen') -> store_inv seen p -> store_inv seen' p.
Proof.
  intros Hsub (stored & H1 & H2 & H3 & H4). exists stored. naive_solver.
Qed.

(** *** What each operation does to the store and to the pending sends *)

Lemma sends_frame (now : Z) (m : M unit) :
  preserves store_part m -> sends_at_most_one now m.
Proof.
  intros H p. specialize (H p). unfold store_part in H.
  injection H as -> ->. auto.
Qed.

Lemma sends_bind {A} (now : Z) (m : M A) (k : A -> M unit) :
  preserves store_part m -> (forall a, sends_at_most_one now (k a)) ->
  sends_at_most_one now (m ≫= k).
Proof.
  intros Hm Hk p. rewrite run_bind. specialize (Hm p). unfold store_part in Hm.
  destruct (m p) as [[e|a] p']; cbn [snd] in *.
  - injection Hm as -> ->. auto.
  - injection Hm as <- <-. apply Hk.
Qed.

Lemma handleSubmit_sends_at_most_one (now : Z) (date : jsstring) :
  sends_at_most_one now (handleSubmit now date).
Proof.
  unfold handleSubmit.
  apply sends_bind; [frame|intros _].
  apply sends_bind; [frame|intros _].
  apply sends_bind; [apply validateForm_store|intros ok].
  destruct (negb ok); [apply sends_frame; frame|].
  do 6 (apply sends_bind; [frame|intros ?]).
  intros p. unfold modify. cbn. split; [reflexivity|]. right. eauto 10.
Qed.

Lemma settled_store (outcome : SendOutcome) (data : json) (p : Page) :
  store_part (snd (settled outcome data p)) =
  match outcome with
  | Fulfilled => store_part (snd (saveMessageToStorage data p))
  | Rejected => store_part p
  end.
Proof.
  assert (Hcatch : preserves store_part handleSubmit_catch)
    by (unfold_script; frame).
  destruct outcome; cbn [settled]; [|apply Hcatch].
  unfold catch, handleSubmit_then. rewrite run_bind.
  destruct (saveMessageToStorage data p) as [[e|[]] p1]; cbn [snd].
  - apply Hcatch.
  - match goal with |- context [?m p1] =>
      assert (Hrest : preserves store_part m) by (unfold_script; frame);
      specialize (Hrest p1); destruct (m p1) as [[e|[]] p2]
    end; cbn [snd] in *; [|exact Hrest].
    by rewrite Hcatch.
Qed.

Lemma slot_holds_written (stored : list json) (p : Page) :
  slot_holds
    (set_localStorage
       (insert "contactMessages"%string (JSON_stringify (JArray stored))) p)
    stored.
Proof. right. apply lookup_set_contactMessages. Qed.

Lemma slot_holds_of (p q : Page) (stored : list json) :
  localStorage q !! "contactMessages"%string
  = localStorage p !! "contactMessages"%string ->
  slot_holds p stored -> slot_holds q stored.
Proof. intros H. unfold slot_holds. by rewrite H. Qed.

Lemma filter_submseteq {A} (f : A -> bool) (l : list A) : List.filter f l ⊆+ l.
Proof.
  induction l as [|x l IH]; cbn; [done|].
  destruct (f x); by constructor.
Qed.

Lemma initializeTheme_store (prefersDark : bool) :
  preserves store_part (initializeTheme prefersDark).
Proof. unfold_script; frame. Qed.

Lemma load_store (html : Page) (prefersDark : bool) (p : Page) :
  store_part (snd (load html prefersDark p)) = (localStorage p, []).
Proof.
  unfold load. rewrite run_bind. unfold modify at 1. cbv beta iota.
  by rewrite initializeTheme_store.
Qed.

Lemma clearAllMessages_store (p : Page) :
  store_part (snd (clearAllMessages true p)) =
  (delete "contactMessages"%string (localStorage p), pending p).
Proof.
  unfold clearAllMessages. rewrite run_bind. unfold removeItem, modify at 1.
  cbv beta iota. by rewrite renderMessagesList_store.
Qed.

Lemma toggleTheme_store (p : Page) :
  exists text,
    store_part (snd (toggleTheme p)) =
    (<["theme"%string := text]> (localStorage p), pending p).
Proof.
  unfold toggleTheme. rewrite !run_bind. cbv [modify gets setItem].
  cbv beta iota. eexists. reflexivity.
Qed.

(** One event keeps the invariant, when the reading of a submission is
    greater than the ids seen so far. *)
Lemma step_store_inv (seen : list Z) (p : Page) (ev : Event) :
  store_inv seen p ->
  (forall now date, ev = Submitted now date -> forall n, n ∈ seen -> (n < now)%Z) ->
  store_inv (seen ++ readings [ev]) (step p ev).
Proof.
  intros Hinv Hclock. unfold step.
  assert (Hseen : store_inv (seen ++ readings [ev]) p).
  { apply (store_inv_seen seen); [|done]. intros n Hn. apply elem_of_app. auto. }
  assert (Hdom : preserves store_part (handle ev) ->
                 store_inv (seen ++ readings [ev]) (snd (handle ev p))).
  { intros H. by apply (store_inv_same _ p). }
  destruct ev as [html prefersDark|f text|f|now date|i outcome|messageId|confirmed
                  | | | | | |matches|i];
    try (apply Hdom; unfold_script; solve [frame]).
  - (* PageLoaded *)
    apply (store_inv_sub _ p); [done|]. intros stored Hslot. exists stored.
    cbn [handle]. pose proof (load_store html prefersDark p) as Hs.
    unfold store_part in Hs.
    pose proof (f_equal fst Hs) as Hls. pose proof (f_equal snd Hs) as Hpend.
    cbn [fst snd] in Hls, Hpend. split.
    + apply (slot_holds_of p); [by rewrite Hls|done].
    + rewrite Hpend, app_nil_r. by apply submseteq_inserts_r.
  - (* Submitted *)
    cbn [handle readings omap list_omap]. 
    destruct (handleSubmit_sends_at_most_one now date p) as [Hls [Hpend|Hpend]].
    + apply (store_inv_same _ p); [|done]. unfold store_part. by rewrite Hls, Hpend.
    + destruct Hpend as (name & email & subject & message & date' & Hpend).
      destruct Hinv as (stored & Hslot & Hrec & Hnd & Hsub).
      exists stored. split; [by apply (slot_holds_of p); [rewrite Hls|]|].
      rewrite Hpend, app_assoc. split; [|split].
      * apply Forall_app. split; [done|]. constructor; [|constructor].
        red. eauto 10.
      * rewrite omap_app. cbn. apply NoDup_app. split; [done|]. split.
        -- intros n Hn Hin. apply list_elem_of_singleton in Hin as ->.
           specialize (Hclock now date eq_refl now (Hsub _ Hn)). lia.
        -- apply NoDup_singleton.
      * intros n. rewrite omap_app, !elem_of_app. cbn. intros [Hn|Hn]; auto.
  - (* SendSettled *)
    cbn [handle]. destruct (pending p !! i) as [data|] eqn:Hi.
    + rewrite (settle_run _ _ _ _ Hi).
      pose proof (settled_store outcome data (set_pending (delete i) p)) as Hs.
      apply (store_inv_sub _ p); [done|]. intros stored Hslot.
      unfold store_part in Hs.
      pose proof (f_equal fst Hs) as Hls. pose proof (f_equal snd Hs) as Hpend.
      clear Hs. destruct outcome; cbn [fst snd] in Hls, Hpend.
      * assert (Hget : fst (getMessagesFromStorage (set_pending (delete i) p))
                       = inr (JArray stored)).
        { rewrite <- (slot_holds_listAll p stored Hslot).
          by apply getMessagesFromStorage_of_storage. }
        rewrite (saveMessageToStorage_array _ _ _ Hget) in Hls, Hpend.
        exists (data :: stored). split.
        -- right. rewrite Hls. apply lookup_insert_eq.
        -- rewrite Hpend. cbn [set_pending pending]. apply Permutation_submseteq.
           symmetry. etrans.
           { apply Permutation_app_head, (delete_Permutation _ _ _ Hi). }
           symmetry. apply Permutation_middle.
      * exists stored. split.
        -- apply (slot_holds_of p); [by rewrite Hls|done].
        -- rewrite Hpend. apply submseteq_skips_l, submseteq_delete.
    + apply (store_inv_same _ p); [|done]. unfold settle.
      rewrite run_bind. unfold gets. by rewrite Hi.
  - (* DeleteClicked *)
    cbn [handle]. destruct Hseen as (stored & Hslot & Hrec & Hnd & Hsub).
    pose proof (slot_holds_listAll p stored Hslot) as Hget.
    assert (Hnn : Forall (fun msg => msg <> JNull) stored).
    { apply Forall_app in Hrec as [Hrec _].
      eapply Forall_impl; [exact Hrec|]. apply is_record_not_null. }
    pose proof (deleteMessage_storage messageId p stored _ Hget
                  (filter_id_filter messageId stored Hnn)) as Hls.
    assert (Hpend : pending (snd (deleteMessage messageId p)) = pending p)
      by (apply (ltac:(unfold_script; frame)
                 : preserves pending (deleteMessage messageId))).
    apply (store_inv_sub _ p); [by exists stored|]. intros stored' Hslot'.
    assert (stored' = stored) as ->.
    { pose proof (slot_holds_listAll p stored' Hslot') as Hget'. congruence. }
    eexists. split.
    + right. rewrite Hls. apply lookup_insert_eq.
    + rewrite Hpend. apply submseteq_skips_r, filter_submseteq.
  - (* ClearAllClicked *)
    cbn [handle]. destruct confirmed; [|by apply (store_inv_same _ p)].
    apply (store_inv_sub _ p); [done|]. intros stored Hslot. exists [].
    pose proof (clearAllMessages_store p) as Hs.
    unfold store_part in Hs.
    pose proof (f_equal fst Hs) as Hls. pose proof (f_equal snd Hs) as Hpend.
    cbn [fst snd] in Hls, Hpend. split.
    + left. split; [|done]. rewrite Hls. apply lookup_delete_eq.
    + rewrite Hpend. by apply submseteq_inserts_l.
  - (* ThemeToggled *)
    cbn [handle]. apply (store_inv_sub _ p); [done|]. intros stored Hslot.
    exists stored. destruct (toggleTheme_store p) as [text Hs].
    unfold store_part in Hs.
    pose proof (f_equal fst Hs) as Hls. pose proof (f_equal snd Hs) as Hpend.
    cbn [fst snd] in Hls, Hpend.
    split; [|by rewrite Hpend].
    apply (slot_holds_of p); [|done]. rewrite Hls. by apply lookup_insert_ne.
Qed.

Lemma readings_cons (ev : Event) (evs : list Event) :
  readings (ev :: evs) = readings [ev] ++ readings evs.
Proof. unfold readings. cbn. by destruct ev. Qed.

(** Every run whose clock readings increase keeps the invariant. *)
Lemma run_store_inv (evs : list Event) :
  forall (seen : list Z) (p : Page),
  store_inv seen p ->
  StronglySorted Z.lt (seen ++ readings evs) ->
  store_inv (seen ++ readings evs) (run p evs).
Proof.
  induction evs as [|ev evs IH]; intros seen p Hinv Hsorted.
  - cbn. by rewrite app_nil_r.
  - rewrite readings_cons, app_assoc in *. cbn [run foldl].
    apply IH; [|done]. apply step_store_inv; [done|].
    intros now date -> n Hn. cbn in Hsorted.
    apply StronglySorted_app_1_l in Hsorted.
    eapply (StronglySorted_app_1_elem_of _ _ _ _ _ Hsorted); [done|].
    by apply list_elem_of_singleton.
Qed.

Lemma store_inv_fresh (p : Page) :
  localStorage p !! "contactMessages"%string = None -> pending p = [] ->
  store_inv [] p.
Proof.
  intros Hls Hpend. exists []. rewrite Hpend. split; [by left|].
  split; [constructor|]. split; [constructor|]. intros n Hn.
  by apply elem_of_nil in Hn.
Qed.

(** C8, as amended.  From a page with nothing stored and nothing
    pending, after every run of events whose submissions read strictly
    increasing clock values, a pending record has an id that no stored
    entry has, so that when its send attempt is acknowledged it goes to the
    head of the stored collection as the only entry with its id.  The code
    makes no check of its own. *)
Theorem inserted_id_is_unique (p0 : Page) (evs : list Event) (i : nat)
    (data : json) :
  localStorage p0 !! "contactMessages"%string = None ->
  pending p0 = [] ->
  StronglySorted Z.lt (readings evs) ->
  pending (run p0 evs) !! i = Some data ->
  exists (now : Z) (items : list json),
    record_id data = Some now
    /\ fst (getMessagesFromStorage (run p0 evs)) = inr (JArray items)
    /\ Forall (fun msg => has_id (JNumber now 0) msg = false) items
    /\ fst (getMessagesFromStorage (step (run p0 evs) (SendSettled i Fulfilled)))
       = inr (JArray (data :: items)).
Proof.
  intros Hls Hpend Hsorted Hi.
  pose proof (run_store_inv evs [] p0 (store_inv_fresh p0 Hls Hpend) Hsorted)
    as (stored & Hslot & Hrec & Hnd & _).
  set (p := run p0 evs) in *.
  apply Forall_app in Hrec as [Hstored Hpending].
  assert (Hdata : is_record data).
  { rewrite Forall_forall in Hpending. apply Hpending.
    by apply list_elem_of_lookup_2 in Hi. }
  assert (Hid : exists now, record_id data = Some now).
  { destruct Hdata as (now & ? & ? & ? & ? & ? & ->). by exists now. }
  destruct Hid as [now Hid]. exists now, stored.
  split; [exact Hid|]. split; [by apply slot_holds_listAll|]. split.
  - rewrite omap_app in Hnd. apply NoDup_app in Hnd as (_ & Hdisj & _).
    rewrite Forall_forall in Hstored |- *. intros msg Hmsg.
    rewrite (has_id_record _ _ (Hstored msg Hmsg)).
    apply bool_decide_eq_false_2. intros Hm.
    apply (Hdisj now).
    + apply list_elem_of_omap. eauto.
    + apply list_elem_of_omap. exists data. split; [|done].
      by apply list_elem_of_lookup_2 in Hi.
  - unfold step. cbn [handle]. rewrite (settle_run _ _ _ _ Hi).
    pose proof (settled_store Fulfilled data (set_pending (delete i) p)) as Hs.
    apply (f_equal fst) in Hs. unfold store_part in Hs. cbn [fst] in Hs.
    assert (Hget : fst (getMessagesFromStorage (set_pending (delete i) p))
                   = inr (JArray stored)).
    { rewrite <- (slot_holds_listAll p stored Hslot).
      by apply getMessagesFromStorage_of_storage. }
    rewrite (saveMessageToStorage_array _ _ _ Hget) in Hs.
    rewrite <- (getMessagesFromStorage_written (data :: stored) p).
    apply getMessagesFromStorage_of_storage. exact Hs.
Qed.

Lemma inserted_id_is_unique_witness :
  exists (now : Z) (items : list json),
    record_id (example_record 7 "Jo") = Some now
    /\ fst (getMessagesFromStorage
              (run example_page
                 (fill_and_submit 5 ++ [SendSettled 0 Fulfilled]
                  ++ fill_and_submit 7)))
       = inr (JArray items)
    /\ Forall (fun msg => has_id (JNumber now 0) msg = false) items.
Proof.
  destruct (inserted_id_is_unique example_page
              (fill_and_submit 5 ++ [SendSettled 0 Fulfilled] ++ fill_and_submit 7)
              0 (example_record 7 "Jo")) as (now & items & H1 & H2 & H3 & _).
  - reflexivity.
  - reflexivity.
  - vm_compute. repeat constructor.
  - vm_compute. reflexivity.
  - exists now, items. auto.
Defined.

(** C8, as stated, fails: two submissions that read the same clock value
    give two records with the same id. *)
Lemma same_reading_same_id : ~ inserted_id_unique_for Z.le.
Proof.
  intros H.
  specialize (H example_page
                (fill_and_submit 5 ++ [SendSettled 0 Fulfilled] ++ fill_and_submit 5)
                0%nat (example_record 5 "Jo") 5%Z [example_record 5 "Jo"]).
  assert (Hall : Forall (fun msg => has_id (JNumber 5 0) msg = false)
                   [example_record 5 "Jo"]).
  { apply H.
    - reflexivity.
    - reflexivity.
    - vm_compute. repeat constructor; lia || discriminate.
    - vm_compute. reflexivity.
    - reflexivity.
    - vm_compute. reflexivity. }
  apply Forall_cons in Hall as [Hid _]. vm_compute in Hid. discriminate.
Qed.

(** ** The builtins and the script on concrete inputs *)

Example trim_spaces : trim (lit "  ab c ") = lit "ab c".
Proof. reflexivity. Qed.

Example trim_unicode_spaces : trim [0xFEFF; 0x09; 0x61; 0xA0; 0x2028] = [0x61].
Proof. reflexivity. Qed.

Example email_pattern_accepts : regex_test (lit "a@b.co") email_pattern = true.
Proof. reflexivity. Qed.

Example email_pattern_accepts_dots :
  regex_test (lit "first.last@mail.example.com") email_pattern = true.
Proof. reflexivity. Qed.

Example email_pattern_rejects :
  regex_test (lit "not-an-email") email_pattern = false
  /\ regex_test (lit "a@b") email_pattern = false
  /\ regex_test (lit "a b@c.d") email_pattern = false
  /\ regex_test (lit "a@@b.co") email_pattern = false
  /\ regex_test (lit "@b.co") email_pattern = false.
Proof. repeat split; reflexivity. Qed.

Example email_valid : validateField "senderEmail" (lit " a@b.co ") = valid_result.
Proof. reflexivity. Qed.

Example email_invalid :
  validateField "senderEmail" (lit "not-an-email") =
  invalid_result
    (Some (lit "Please enter a valid email address (e.g., name@example.com)")).
Proof. reflexivity. Qed.

Example name_required :
  validateField "senderName" (lit "   ") =
  invalid_result (Some (lit "Please enter your name")).
Proof. reflexivity. Qed.

Example unknown_field_valid : validateField "phone" [] = valid_result.
Proof. reflexivity. Qed.

Example parse_text :
  JSON_parse (Some (lit " [1, 2.50e3 , [true,null], -0, []] ")) =
  inr (JArray [JNumber 1 0; JNumber 250 1; JArray [JBool true; JNull];
               JNumber 0 0; JArray []]).
Proof. vm_compute. reflexivity. Qed.

Example parse_object :
  JSON_parse (Some ([0x7B; 0x22; 0x69; 0x64; 0x22; 0x3A] ++ lit " 17 }")) =
  inr (JObject [(lit "id", JNumber 17 0)]).
Proof. vm_compute. reflexivity. Qed.

Example parse_not_json :
  JSON_parse (Some (lit "{bad")) = inl SyntaxError
  /\ JSON_parse (Some (lit "[1,]")) = inl SyntaxError
  /\ JSON_parse (Some (lit "01")) = inl SyntaxError
  /\ JSON_parse (Some (lit "undefined")) = inl SyntaxError
  /\ JSON_parse (Some []) = inl SyntaxError.
Proof. repeat split; vm_compute; reflexivity. Qed.

Example parse_absent : JSON_parse None = inr JNull.
Proof. vm_compute. reflexivity. Qed.

Example stringify_array :
  JSON_stringify (JArray [JNumber 1769701500000 0; JBool true; JNull; JArray []])
  = lit "[1769701500000,true,null,[]]".
Proof. vm_compute. reflexivity. Qed.

Example stringify_string :
  JSON_stringify (JString (lit "a" ++ [0x22; 0x0A; 0x01; 0xD800]))
  = [0x22] ++ lit "a\" ++ [0x22] ++ lit "\n\u0001\ud800" ++ [0x22].
Proof. vm_compute. reflexivity. Qed.

(** A stored value that is JSON but not an array: [listAll] returns it
    as it is and [append] throws a [TypeError]. *)
Example stored_object :
  let p := set_localStorage (insert "contactMessages"%string (lit "{}")) example_page in
  fst (getMessagesFromStorage p) = inr (JObject [])
  /\ saveMessageToStorage JNull p = (inl TypeError, p).
Proof. split; vm_compute; reflexivity. Qed.

(** The scenario of the specification: a valid form is submitted and the
    send attempt is acknowledged. *)
Example submit_and_succeed :
  let p := run example_page (fill_and_submit 1769701500000 ++ [SendSettled 0 Fulfilled]) in
  fst (getMessagesFromStorage p) = inr (JArray [example_record 1769701500000 "Jo"])
  /\ pending p = []
  /\ textContent <$> document p !! "formStatus"%string
     = Some (lit "Message sent successfully! I'll get back to you soon.")
  /\ disabled <$> document p !! "submitBtn"%string = Some false
  /\ value <$> document p !! "message"%string = Some []
  /\ CloseModal ∈ (snd <$> timers p).
Proof.
  repeat split; try (vm_compute; reflexivity).
  apply list_elem_of_fmap. exists (2500%nat, CloseModal). split; [done|].
  apply list_elem_of_In. vm_compute. tauto.
Qed.

(** The scenario of the specification: a message of five characters
    fails validation, nothing is sent and nothing is stored. *)
Example submit_short_message :
  let p := run example_page
             [ Typed "senderName" (lit "Jo"); Typed "senderEmail" (lit "jo@x.com");
               Typed "subject" (lit "Hi there"); Typed "message" (lit "short");
               Submitted 1769701500000 (lit "2026-01-29T15:45:00.000Z") ] in
  localStorage p = ∅
  /\ pending p = []
  /\ activeElement p = Some "message"%string
  /\ textContent <$> errorSpans p !! "message"%string
     = Some (lit "Message must be at least 10 characters")
  /\ textContent <$> document p !! "formStatus"%string
     = Some (lit "Please fix the errors above and try again.")
  /\ disabled <$> document p !! "submitBtn"%string = Some false.
Proof. repeat split; vm_compute; reflexivity. Qed.

(** When the send attempt is acknowledged but the stored text is not
    JSON, the [then] callback throws in [saveMessageToStorage] and the
    [catch] callback reports a failure. *)
Example fulfilled_but_store_corrupt :
  let p0 := set_localStorage (insert "contactMessages"%string (lit "{bad")) example_page in
  let p := run p0 (fill_and_submit 1769701500000 ++ [SendSettled 0 Fulfilled]) in
  localStorage p = localStorage p0
  /\ textContent <$> document p !! "formStatus"%string
     = Some (lit "Failed to send message. Please try again or email me directly.").
Proof. split; vm_compute; reflexivity. Qed.

Example clearAll_then_listAll :
  fst (getMessagesFromStorage
         (step (page_with_messages [example_record 1 "Jo"]) (ClearAllClicked true)))
  = inr (JArray []).
Proof. vm_compute. reflexivity. Qed.
